(** * mdview: the live-view coordination core of [main.go]

    A shallow embedding of the parts of [main.go] that combine the sources
    into the document snapshot, detect changes by polling, fan reload signals
    out to the connected viewers, decide when the process shuts down, and
    guard the snapshot with the read/write mutex.

    Conventions of the embedding:
    - [[]byte] is [list byte]; a path is a [string];
    - [time.Time] is an instant on the integer line ([Z]); [t.After(u)] is
      [u < t];
    - a Go [error] is its message;
    - a buffered channel of [struct{}] is its capacity and the number of
      buffered elements; channels live in a heap indexed by identity, the
      registry [clients] is a finite set of identities;
    - every goroutine is cut into its atomic steps, and an execution is a
      list of such steps. *)

From Stdlib Require Import ZArith List Bool Lia.
From Stdlib Require Import Strings.String Strings.Ascii Strings.Byte.
From stdpp Require Import base option list gmap sets strings pretty.

Local Open Scope string_scope.
Local Open Scope list_scope.

(** ** Values shared by all components *)

Abbreviation bytes := (list byte).

(** The result of a call that returns [(value, error)]. *)
Inductive result (A : Type) : Type :=
| Ok (a : A)
| Err (msg : string).
Arguments Ok {A} a.
Arguments Err {A} msg.

Definition result_map {A B} (f : A -> B) (r : result A) : result B :=
  match r with
  | Ok a => Ok (f a)
  | Err e => Err e
  end.

Definition result_ok {A} (r : result A) : option A :=
  match r with
  | Ok a => Some a
  | Err _ => None
  end.

(** The newline character and the one-line string made of it. *)
Definition nl : string := String (ascii_of_nat 10) EmptyString.

(** What the operating system answers at one moment: [filepath.Abs],
    [os.Stat(..).ModTime()] and [os.ReadFile]. *)
Record fsview : Type := {
  fs_abs : string -> option string;
  fs_stat : string -> option Z;
  fs_read : string -> result bytes
}.

(** ** Combining the sources (run, lines 98-108; watchFiles, lines 386-396) *)

Module Combine.

(** The appended boundary: [append(combined, '\n', '\n')]. *)
Definition boundary : bytes := [x0a; x0a].

(** One turn of either loop once the data has been read:
    [if len(combined) > 0 { combined = append(combined, '\n', '\n') }]
    [combined = append(combined, data...)]. *)
Definition append_source (combined data : bytes) : bytes :=
  (if (0 <? List.length combined)%nat then combined ++ boundary
   else combined) ++ data.

(** The loop of [run]: a failed read returns the wrapped error at once. *)
Fixpoint read_args (fs : fsview) (args : list string) (combined : bytes)
  : result bytes :=
  match args with
  | [] => Ok combined
  | arg :: rest =>
      match fs_read fs arg with
      | Err e => Err ("reading " +:+ arg +:+ ": " +:+ e)
      | Ok data => read_args fs rest (append_source combined data)
      end
  end.

(** The loop of [watchFiles]: a failed read is skipped with [continue]. *)
Fixpoint reread (fs : fsview) (paths : list string) (combined : bytes)
  : bytes :=
  match paths with
  | [] => combined
  | p :: rest =>
      match fs_read fs p with
      | Err _ => reread fs rest combined
      | Ok data => reread fs rest (append_source combined data)
      end
  end.

(** Both loops seen on the data alone. *)
Definition join_sources (sources : list bytes) : bytes :=
  fold_left append_source sources [].

(** The sources a refresh manages to read, in order. *)
Definition readable (fs : fsview) (paths : list string) : list bytes :=
  omap (fun p => result_ok (fs_read fs p)) paths.

(** All sources of a startup, or the first wrapped error. *)
Fixpoint read_all (fs : fsview) (args : list string) : result (list bytes) :=
  match args with
  | [] => Ok []
  | arg :: rest =>
      match fs_read fs arg with
      | Err e => Err ("reading " +:+ arg +:+ ": " +:+ e)
      | Ok data => result_map (cons data) (read_all fs rest)
      end
  end.

(** Sources written one after the other with the boundary between
    neighbours. *)
Fixpoint sep_join (sources : list bytes) : bytes :=
  match sources with
  | [] => []
  | s :: rest =>
      match rest with
      | [] => s
      | _ :: _ => s ++ boundary ++ sep_join rest
      end
  end.

Definition is_empty (s : bytes) : bool :=
  match s with
  | [] => true
  | _ :: _ => false
  end.

(** The sources from the first non-empty one on. *)
Fixpoint drop_empty_prefix (sources : list bytes) : list bytes :=
  match sources with
  | [] => []
  | s :: rest => if is_empty s then drop_empty_prefix rest else s :: rest
  end.

(** The join as the specification words it: the boundary stands between
    consecutive non-empty sources only, so empty sources leave no trace. *)
Definition spec_join (sources : list bytes) : bytes :=
  sep_join (filter (fun s => negb (is_empty s)) sources).

End Combine.

(** ** The viewer registry (handleSSE, lines 314-323 and 329-337;
       notifyClients, lines 340-349) *)

Module Broadcaster.

(** A channel of [struct{}]: [make(chan struct{}, cap)] and the number of
    elements waiting in its buffer. *)
Record chan : Type := {
  chan_cap : nat;
  chan_len : nat
}.

Definition make_chan (cap : nat) : chan :=
  {| chan_cap := cap; chan_len := 0 |}.

(** [select { case ch <- struct{}{}: default: }]: the element is buffered
    when there is room, otherwise the [default] branch runs and nothing
    changes; the flag tells which branch ran. *)
Definition try_send (c : chan) : chan * bool :=
  if (chan_len c <? chan_cap c)%nat
  then ({| chan_cap := chan_cap c; chan_len := S (chan_len c) |}, true)
  else (c, false).

(** [case <-ch:] is ready exactly when the buffer is not empty. *)
Definition try_recv (c : chan) : option chan :=
  match chan_len c with
  | O => None
  | S n => Some {| chan_cap := chan_cap c; chan_len := n |}
  end.

(** The channels ever made, by identity, and the global map [clients]. *)
Record registry : Type := {
  chans : gmap nat chan;
  clients : gset nat
}.

Definition empty : registry := {| chans := ∅; clients := ∅ |}.

(** [ch := make(chan struct{}, 1); clients[ch] = struct{}{}]. *)
Definition subscribe (r : registry) : registry * nat :=
  let ch := fresh (dom (chans r)) in
  ({| chans := <[ch := make_chan 1]> (chans r);
      clients := {[ch]} ∪ clients r |}, ch).

(** [delete(clients, ch)]. *)
Definition unsubscribe (ch : nat) (r : registry) : registry :=
  {| chans := chans r; clients := clients r ∖ {[ch]} |}.

(** The body of the [for ch := range clients] loop, on the heap. *)
Definition signal (ch : nat) (heap : gmap nat chan) : gmap nat chan :=
  alter (fun c => fst (try_send c)) ch heap.

Definition notifyClients (r : registry) : registry :=
  {| chans := set_fold signal (chans r) (clients r);
     clients := clients r |}.

(** The stream handler of [ch] takes the signal out of its channel. *)
Definition receive (ch : nat) (r : registry) : option registry :=
  if decide (ch ∈ clients r) then
    c ← chans r !! ch;
    c' ← try_recv c;
    Some {| chans := <[ch := c']> (chans r); clients := clients r |}
  else None.

(** Signals waiting in the channel [ch]. *)
Definition pending (r : registry) (ch : nat) : nat :=
  match chans r !! ch with
  | Some c => chan_len c
  | None => 0
  end.

(** [len(clients)]. *)
Definition population (r : registry) : nat := size (clients r).

(** The operations that touch the registry or a registered channel. *)
Inductive op : Type :=
| OpSubscribe
| OpUnsubscribe (ch : nat)
| OpNotify
| OpReceive (ch : nat).

Definition apply (o : op) (r : registry) : registry :=
  match o with
  | OpSubscribe => fst (subscribe r)
  | OpUnsubscribe ch => unsubscribe ch r
  | OpNotify => notifyClients r
  | OpReceive ch => default r (receive ch r)
  end.

Definition run_ops (ops : list op) (r : registry) : registry :=
  fold_left (fun r o => apply o r) ops r.

(** What [make(chan struct{}, 1)] guarantees of a channel at any time. *)
Definition single_slot (c : chan) : Prop :=
  chan_cap c = 1 /\ chan_len c <= 1.

(** Every registered channel exists and is a single-slot channel. *)
Definition well_formed (r : registry) : Prop :=
  forall ch, ch ∈ clients r ->
    exists c, chans r !! ch = Some c /\ single_slot c.

End Broadcaster.

(** ** The change detector (watchFiles, lines 351-404) *)

Module Detector.

(** One turn of the prologue loop over [paths]. *)
Definition record_path (fs : fsview) (modTimes : gmap string Z) (p : string)
  : gmap string Z :=
  match fs_abs fs p with
  | None => modTimes
  | Some abs =>
      match fs_stat fs abs with
      | None => modTimes
      | Some t => <[abs := t]> modTimes
      end
  end.

Definition baseline (fs : fsview) (paths : list string) : gmap string Z :=
  fold_left (record_path fs) paths ∅.

(** One turn of [for absPath, lastMod := range modTimes]; the state is the
    map being updated and the flag [changed]. *)
Definition poll_path (fs : fsview) (absPath : string) (lastMod : Z)
    (acc : gmap string Z * bool) : gmap string Z * bool :=
  match fs_stat fs absPath with
  | None => acc
  | Some t =>
      if (lastMod <? t)%Z then (<[absPath := t]> (fst acc), true) else acc
  end.

Definition poll (fs : fsview) (modTimes : gmap string Z)
  : gmap string Z * bool :=
  map_fold (poll_path fs) (modTimes, false) modTimes.

(** The paths of the file system that the prologue records. *)
Definition tracked (fs : fsview) (paths : list string) : list string :=
  omap (fs_abs fs) paths.

(** The value recorded for [absPath] after a poll that found [lastMod]. *)
Definition latest (fs : fsview) (absPath : string) (lastMod : Z) : Z :=
  match fs_stat fs absPath with
  | Some t => if (lastMod <? t)%Z then t else lastMod
  | None => lastMod
  end.

(** The answers of [fs], except that [os.Stat] finds the file at [a] last
    written at time [t]. *)
Definition touch (a : string) (t : Z) (fs : fsview) : fsview :=
  {| fs_abs := fs_abs fs;
     fs_stat := fun k => if decide (k = a) then Some t else fs_stat fs k;
     fs_read := fs_read fs |}.

End Detector.

(** ** The lifecycle monitor (run, lines 159-192) *)

Module Lifecycle.

(** Where the sampling goroutine is: in its first loop, in its second
    loop, after [close(disconnectCh)], or gone through [ctx.Done()]. *)
Inductive monitor : Type :=
| Waiting
| Watching
| Fired
| Returned.

(** One turn of the loop the goroutine is in: [count] is [len(clients)]
    read under the lock, [done] tells whether [ctx.Done()] is ready. *)
Definition sample (count : nat) (done : bool) (m : monitor) : monitor :=
  match m with
  | Waiting =>
      if (0 <? count)%nat then Watching
      else if done then Returned else Waiting
  | Watching =>
      if (count =? 0)%nat then Fired
      else if done then Returned else Watching
  | Fired => Fired
  | Returned => Returned
  end.

Definition observe (m : monitor) (o : nat * bool) : monitor :=
  sample (fst o) (snd o) m.

(** The goroutine over a sequence of observations. *)
Definition monitor_run (obs : list (nat * bool)) (m : monitor) : monitor :=
  fold_left observe obs m.

(** Two neighbouring samples that both saw no viewer. *)
Fixpoint two_zeros_in_a_row (counts : list nat) : bool :=
  match counts with
  | O :: ((O :: _) as rest) => true
  | _ :: rest => two_zeros_in_a_row rest
  | [] => false
  end.

End Lifecycle.


(** ** The running session: the goroutines of [run] cut into atomic steps *)

Module Session.

Import Broadcaster Detector Lifecycle.

(** The goroutine [watchFiles]: never started (stdin input), started but
    still before its prologue, in its polling loop, or returned. *)
Inductive watcher : Type :=
| NotStarted
| Spawned (paths : list string)
| Polling (paths : list string) (modTimes : gmap string Z)
| Stopped.

(** Which case of the final [select] of [run] was taken. *)
Inductive cause : Type :=
| Interrupt
| Drained
| Cancelled.

Record session : Type := {
  content : bytes;
  filePath : string;
  viewers : registry;
  reloads : list nat;
  watch : watcher;
  mon : monitor;
  ctx_done : bool;
  shutdown : option cause
}.

Definition with_viewers (r : registry) (s : session) : session :=
  {| content := content s; filePath := filePath s; viewers := r;
     reloads := reloads s; watch := watch s; mon := mon s;
     ctx_done := ctx_done s; shutdown := shutdown s |}.

Definition with_reload (ch : nat) (s : session) : session :=
  {| content := content s; filePath := filePath s; viewers := viewers s;
     reloads := ch :: reloads s; watch := watch s; mon := mon s;
     ctx_done := ctx_done s; shutdown := shutdown s |}.

Definition with_content (c : bytes) (s : session) : session :=
  {| content := c; filePath := filePath s; viewers := viewers s;
     reloads := reloads s; watch := watch s; mon := mon s;
     ctx_done := ctx_done s; shutdown := shutdown s |}.

Definition with_watch (w : watcher) (s : session) : session :=
  {| content := content s; filePath := filePath s; viewers := viewers s;
     reloads := reloads s; watch := w; mon := mon s;
     ctx_done := ctx_done s; shutdown := shutdown s |}.

Definition with_mon (m : monitor) (s : session) : session :=
  {| content := content s; filePath := filePath s; viewers := viewers s;
     reloads := reloads s; watch := watch s; mon := m;
     ctx_done := ctx_done s; shutdown := shutdown s |}.

Definition cancel (s : session) : session :=
  {| content := content s; filePath := filePath s; viewers := viewers s;
     reloads := reloads s; watch := watch s; mon := mon s;
     ctx_done := true; shutdown := shutdown s |}.

(** The [select] of [run] is taken once, by the first case that is ready. *)
Definition trigger (c : cause) (s : session) : session :=
  {| content := content s; filePath := filePath s; viewers := viewers s;
     reloads := reloads s; watch := watch s; mon := mon s;
     ctx_done := ctx_done s;
     shutdown := match shutdown s with
                 | Some c0 => Some c0
                 | None => Some c
                 end |}.

(** What the body of [case <-ticker.C] does with the answers [fs] of the
    file system: poll, and on a change re-read, install and notify. *)
Definition tick (fs : fsview) (paths : list string) (modTimes : gmap string Z)
    (s : session) : session :=
  let (modTimes', changed) := poll fs modTimes in
  if changed
  then with_watch (Polling paths modTimes')
         (with_viewers (notifyClients (viewers s))
            (with_content (Combine.reread fs paths []) s))
  else with_watch (Polling paths modTimes') s.

Inductive event : Type :=
| Subscribe
| Disconnect (ch : nat)
| Deliver (ch : nat)
| WatchStart (fs : fsview)
| Tick (fs : fsview)
| WatchStop
| Sample
| Signal
| ServeError.

(** One atomic step of one goroutine; a step that is not enabled leaves the
    session as it is.
    - [Subscribe]: [handleSSE] makes and registers its channel;
    - [Disconnect ch]: the request context of the stream of [ch] is done,
      the handler returns and its deferred [delete] runs;
    - [Deliver ch]: the handler of [ch] receives the signal and writes the
      reload event to its stream;
    - [WatchStart fs]: the prologue of [watchFiles];
    - [Tick fs]: [case <-ticker.C];
    - [WatchStop]: [case <-ctx.Done()] in [watchFiles];
    - [Sample]: one turn of the sampling goroutine;
    - [Signal]: SIGINT or SIGTERM arrives on [sigCh];
    - [ServeError]: [server.Serve] fails and calls [cancel()]. *)
Definition step (s : session) (e : event) : session :=
  match e with
  | Subscribe => with_viewers (fst (subscribe (viewers s))) s
  | Disconnect ch => with_viewers (unsubscribe ch (viewers s)) s
  | Deliver ch =>
      match receive ch (viewers s) with
      | Some r => with_reload ch (with_viewers r s)
      | None => s
      end
  | WatchStart fs =>
      match watch s with
      | Spawned paths => with_watch (Polling paths (baseline fs paths)) s
      | _ => s
      end
  | Tick fs =>
      match watch s with
      | Polling paths modTimes => tick fs paths modTimes s
      | _ => s
      end
  | WatchStop =>
      match watch s with
      | Polling _ _ => if ctx_done s then with_watch Stopped s else s
      | _ => s
      end
  | Sample =>
      let m := sample (population (viewers s)) (ctx_done s) (mon s) in
      let s' := with_mon m s in
      match mon s, m with
      | Watching, Fired => trigger Drained s'
      | _, _ => s'
      end
  | Signal => trigger Interrupt s
  | ServeError => trigger Cancelled (cancel s)
  end.

Definition exec (tr : list event) (s : session) : session :=
  fold_left step tr s.

(** The session right after the goroutines of [run] are started. *)
Definition start (c : bytes) (path : string) (args : list string) : session :=
  {| content := c; filePath := path; viewers := Broadcaster.empty;
     reloads := [];
     watch := if decide (path = EmptyString) then NotStarted else Spawned args;
     mon := Waiting; ctx_done := false; shutdown := None |}.

(** What the [Sample] steps of an execution read: [len(clients)] and
    whether the context was cancelled. *)
Fixpoint observations (tr : list event) (s : session) : list (nat * bool) :=
  match tr with
  | [] => []
  | e :: rest =>
      match e with
      | Sample =>
          (population (viewers s), ctx_done s) :: observations rest (step s e)
      | _ => observations rest (step s e)
      end
  end.

Definition is_subscribe (e : event) : bool :=
  match e with
  | Subscribe => true
  | _ => false
  end.

Definition drained (s : session) : bool :=
  match shutdown s with
  | Some Drained => true
  | _ => false
  end.

(** The watcher is in its loop over [paths] with the keys [keys] in its
    map, or has returned. *)
Definition polls (paths : list string) (keys : gset string) (s : session)
  : Prop :=
  match watch s with
  | Polling paths' modTimes' => paths' = paths /\ dom modTimes' = keys
  | Stopped => True
  | _ => False
  end.

(** No viewer is registered and the sampling goroutine has never seen
    one. *)
Definition idle (s : session) : Prop :=
  clients (viewers s) = ∅ /\
  (mon s = Waiting \/ mon s = Returned) /\
  drained s = false.

(** A session without watcher: nothing was ever signalled or delivered and
    the snapshot is still [c0]. *)
Definition quiet (c0 : bytes) (s : session) : Prop :=
  watch s = NotStarted /\
  reloads s = [] /\
  content s = c0 /\
  forall ch, pending (viewers s) ch = 0.

End Session.


(** ** Startup (main, lines 60-65; run, lines 67-156) *)

Module Startup.

Import Session.

(** What one invocation finds: [os.Args[1:]], whether standard input is a
    character device, what [io.ReadAll(os.Stdin)] gives, the file system
    during the startup reads, the port [net.Listen] binds, and the error of
    [openBrowser] if any. *)
Record invocation : Type := {
  inv_args : list string;
  inv_stdin_tty : bool;
  inv_stdin : result bytes;
  inv_fs : fsview;
  inv_listen : result N;
  inv_browser : option string
}.

(** What the operator and the system see of the startup, in order. *)
Inductive effect : Type :=
| Stderr (text : string)
| Listen
| Serve
| OpenBrowser (url : string)
| GoWatch (paths : list string)
| GoMonitor.

Inductive outcome : Type :=
| Exit (code : Z)
| Fail (err : string)
| Serving (s : session).

Definition is_help (a : string) : bool :=
  bool_decide (a = "-h") || bool_decide (a = "--help").

Definition usage : list effect :=
  [ Stderr ("Usage: mdview <file.md> [file2.md ...]" +:+ nl);
    Stderr ("       cat file.md | mdview" +:+ nl) ].

Definition help : list effect :=
  [ Stderr ("Usage: mdview <file.md> [file2.md ...]" +:+ nl);
    Stderr ("       cat file.md | mdview" +:+ nl +:+ nl);
    Stderr ("Renders Markdown in a browser with live reload." +:+ nl);
    Stderr ("Close the browser tab or press Ctrl+C to exit." +:+ nl) ].

(** The two branches that fill [content] and [filePath]: the log, and either
    the way the function is left or the two globals. *)
Definition load (inv : invocation)
  : list effect * (outcome + bytes * string) :=
  match inv_args inv with
  | [] =>
      if inv_stdin_tty inv
      then (usage, inl (Exit 1))
      else match inv_stdin inv with
           | Err e => ([], inl (Fail ("reading stdin: " +:+ e)))
           | Ok data => ([], inr (data, EmptyString))
           end
  | first :: _ =>
      match Combine.read_args (inv_fs inv) (inv_args inv) [] with
      | Err e => ([], inl (Fail e))
      | Ok combined => ([], inr (combined, first))
      end
  end.

(** From [net.Listen] to the start of the goroutines. *)
Definition serve (inv : invocation) (c : bytes) (path : string)
  : list effect * outcome :=
  match inv_listen inv with
  | Err e => ([], Fail ("starting server: " +:+ e))
  | Ok port =>
      let url := "http://localhost:" +:+ pretty port in
      ([Listen; Serve; Stderr ("Serving at " +:+ url +:+ nl); OpenBrowser url]
       ++ match inv_browser inv with
          | Some e => [Stderr ("Could not open browser: " +:+ e +:+ nl +:+
                               "Open " +:+ url +:+ " manually." +:+ nl)]
          | None => []
          end
       ++ (if decide (path = EmptyString) then []
           else [GoWatch (inv_args inv)])
       ++ [GoMonitor],
       Serving (start c path (inv_args inv)))
  end.

Definition run (inv : invocation) : list effect * outcome :=
  if existsb is_help (inv_args inv) then (help, Exit 0)
  else
    let (log, loaded) := load inv in
    match loaded with
    | inl out => (log, out)
    | inr (c, path) =>
        let (log', out) := serve inv c path in
        (log ++ log', out)
    end.

(** [main]: an error returned by [run] is printed and becomes status 1. *)
Definition main (inv : invocation) : list effect * outcome :=
  let (log, out) := run inv in
  match out with
  | Fail e => (log ++ [Stderr ("mdview: " +:+ e +:+ nl)], Exit 1)
  | _ => (log, out)
  end.

(** The steps that start a piece of the server. *)
Definition starts_server (e : effect) : bool :=
  match e with
  | Stderr _ => false
  | _ => true
  end.

End Startup.


(** ** The document store (renderMarkdown, lines 208-210; watchFiles,
       lines 386-399) under [sync.RWMutex], one memory access per step *)

Module Store.

(** A slice value: pointer to the backing array, length, capacity.  It is
    three words, copied one at a time. *)
Record slice : Type := {
  ptr : nat;
  len : nat;
  cap : nat
}.

Definition nil_slice : slice := {| ptr := 0; len := 0; cap := 0 |}.

(** [sync.RWMutex]: whether a writer holds it, and how many readers do. *)
Record rwmutex : Type := {
  writer : bool;
  readers : nat
}.

(** Program points of [renderMarkdown]: before [mu.RLock()], after it, after
    each word of [src := content], after [mu.RUnlock()], and after
    [md.Convert] has read the bytes of [src]. *)
Inductive rpc : Type :=
| RStart | RLocked | RPtr | RLen | RCap | RUnlocked | RDone.

(** Program points of one refresh of [watchFiles]: before [combined] is
    built, after it, after [mu.Lock()], after each word of
    [content = combined], and after [mu.Unlock()]. *)
Inductive wpc : Type :=
| WStart | WBuilt | WLocked | WPtr | WLen | WCap | WDone.

Inductive thread : Type :=
| Reader (pc : rpc) (src : slice) (out : bytes)
| Writer (pc : wpc) (data : bytes) (combined : slice).

Record state : Type := {
  mu : rwmutex;
  content : slice;
  heap : gmap nat bytes;
  threads : list thread
}.

(** The bytes a slice value denotes in a heap. *)
Definition bytes_of (h : gmap nat bytes) (sl : slice) : bytes :=
  take (len sl) (default [] (h !! ptr sl)).

Definition set_ptr (p : nat) (sl : slice) : slice :=
  {| ptr := p; len := len sl; cap := cap sl |}.
Definition set_len (n : nat) (sl : slice) : slice :=
  {| ptr := ptr sl; len := n; cap := cap sl |}.
Definition set_cap (n : nat) (sl : slice) : slice :=
  {| ptr := ptr sl; len := len sl; cap := n |}.

Definition put (i : nat) (t : thread) (s : state) : state :=
  {| mu := mu s; content := content s; heap := heap s;
     threads := <[i := t]> (threads s) |}.

Definition with_mu (m : rwmutex) (s : state) : state :=
  {| mu := m; content := content s; heap := heap s; threads := threads s |}.

Definition with_content (c : slice) (s : state) : state :=
  {| mu := mu s; content := c; heap := heap s; threads := threads s |}.

Definition with_heap (h : gmap nat bytes) (s : state) : state :=
  {| mu := mu s; content := content s; heap := h; threads := threads s |}.

(** The next step of a reader; [mu.RLock()] waits while a writer holds the
    mutex. *)
Definition step_reader (i : nat) (pc : rpc) (src : slice) (out : bytes)
    (s : state) : state :=
  match pc with
  | RStart =>
      if writer (mu s) then s
      else put i (Reader RLocked src out)
             (with_mu {| writer := false; readers := S (readers (mu s)) |} s)
  | RLocked => put i (Reader RPtr (set_ptr (ptr (content s)) src) out) s
  | RPtr => put i (Reader RLen (set_len (len (content s)) src) out) s
  | RLen => put i (Reader RCap (set_cap (cap (content s)) src) out) s
  | RCap =>
      put i (Reader RUnlocked src out)
        (with_mu {| writer := writer (mu s);
                    readers := pred (readers (mu s)) |} s)
  | RUnlocked => put i (Reader RDone src (bytes_of (heap s) src)) s
  | RDone => s
  end.

(** The next step of a refresh; [combined] starts from [nil], so its bytes
    go to a backing array no other slice points to; [mu.Lock()] waits while
    anyone holds the mutex. *)
Definition step_writer (i : nat) (pc : wpc) (data : bytes) (combined : slice)
    (s : state) : state :=
  match pc with
  | WStart =>
      let p := fresh (dom (heap s)) in
      put i (Writer WBuilt data
               {| ptr := p; len := List.length data; cap := List.length data |})
        (with_heap (<[p := data]> (heap s)) s)
  | WBuilt =>
      if writer (mu s) || negb (readers (mu s) =? 0)%nat then s
      else put i (Writer WLocked data combined)
             (with_mu {| writer := true; readers := 0 |} s)
  | WLocked =>
      put i (Writer WPtr data combined)
        (with_content (set_ptr (ptr combined) (content s)) s)
  | WPtr =>
      put i (Writer WLen data combined)
        (with_content (set_len (len combined) (content s)) s)
  | WLen =>
      put i (Writer WCap data combined)
        (with_content (set_cap (cap combined) (content s)) s)
  | WCap =>
      put i (Writer WDone data combined)
        (with_mu {| writer := false; readers := readers (mu s) |} s)
  | WDone => s
  end.

(** Thread [i] takes its next step if it can. *)
Definition step (s : state) (i : nat) : state :=
  match threads s !! i with
  | Some (Reader pc src out) => step_reader i pc src out s
  | Some (Writer pc data combined) => step_writer i pc data combined s
  | None => s
  end.

Definition exec (schedule : list nat) (s : state) : state :=
  fold_left step schedule s.

(** What a goroutine is going to do. *)
Inductive job : Type :=
| Render
| Install (data : bytes).

Definition spawn (j : job) : thread :=
  match j with
  | Render => Reader RStart nil_slice []
  | Install data => Writer WStart data nil_slice
  end.

(** The store after startup holds [b0]; the goroutines have not moved. *)
Definition init (b0 : bytes) (jobs : list job) : state :=
  {| mu := {| writer := false; readers := 0 |};
     content := {| ptr := 0; len := List.length b0; cap := List.length b0 |};
     heap := {[ 0 := b0 ]};
     threads := spawn <$> jobs |}.

Definition began (pc : wpc) : bool :=
  match pc with
  | WStart | WBuilt => false
  | _ => true
  end.

(** The slice value [run] leaves in [content]. *)
Definition first_slice (b0 : bytes) : slice :=
  {| ptr := 0; len := List.length b0; cap := List.length b0 |}.

(** [sl] is a slice value holding [d] that was, or is being, assigned to
    [content]: the one of startup, or the [combined] of a refresh that has
    taken the lock. *)
Definition installed (b0 : bytes) (ts : list thread) (sl : slice) (d : bytes)
  : Prop :=
  (sl = first_slice b0 /\ d = b0) \/
  exists j pc, ts !! j = Some (Writer pc d sl) /\ began pc = true.

(** The threads between [RLock] and [RUnlock], between [Lock] and
    [Unlock]. *)
Definition holds_read (t : thread) : bool :=
  match t with
  | Reader (RLocked | RPtr | RLen | RCap) _ _ => true
  | _ => false
  end.

Definition holds_write (t : thread) : bool :=
  match t with
  | Writer (WLocked | WPtr | WLen | WCap) _ _ => true
  | _ => false
  end.

Fixpoint count (f : thread -> bool) (ts : list thread) : nat :=
  match ts with
  | [] => 0
  | t :: rest => Nat.b2n (f t) + count f rest
  end.

(** What each thread knows at its program point. *)
Definition thread_ok (b0 : bytes) (ts : list thread) (c : slice) (t : thread)
  : Prop :=
  match t with
  | Reader pc src out =>
      match pc with
      | RStart | RLocked => True
      | RPtr => ptr src = ptr c
      | RLen => ptr src = ptr c /\ len src = len c
      | RCap => src = c
      | RUnlocked => exists d, installed b0 ts src d
      | RDone => exists sl, installed b0 ts sl out
      end
  | Writer pc d sl =>
      match pc with
      | WStart | WBuilt | WDone => True
      | WLocked => exists d', installed b0 ts c d'
      | WPtr => ptr c = ptr sl
      | WLen => ptr c = ptr sl /\ len c = len sl
      | WCap => c = sl
      end
  end.

(** Once built, [combined] points to an array that holds the data. *)
Definition built (h : gmap nat bytes) (t : thread) : Prop :=
  match t with
  | Writer pc d sl =>
      pc <> WStart ->
      h !! ptr sl = Some d /\ len sl = List.length d /\ cap sl = List.length d
  | Reader _ _ _ => True
  end.

Definition job_of (t : thread) : job :=
  match t with
  | Reader _ _ _ => Render
  | Writer _ d _ => Install d
  end.

(** A step of a thread keeps an assignment that has begun. *)
Definition keeps (t t' : thread) : Prop :=
  job_of t' = job_of t /\
  match t with
  | Writer pc d sl =>
      began pc = true -> exists pc', t' = Writer pc' d sl /\ began pc' = true
  | Reader _ _ _ => True
  end.

(** The invariant of the store under the mutex. *)
Record invariant (b0 : bytes) (jobs : list job) (s : state) : Prop := {
  inv_jobs : job_of <$> threads s = jobs;
  inv_readers : readers (mu s) = count holds_read (threads s);
  inv_writer : Nat.b2n (writer (mu s)) = count holds_write (threads s);
  inv_exclusion : writer (mu s) = true -> readers (mu s) = 0;
  inv_content :
    writer (mu s) = false ->
    exists d, installed b0 (threads s) (content s) d;
  inv_first : heap s !! 0 = Some b0;
  inv_built : forall j t, threads s !! j = Some t -> built (heap s) t;
  inv_threads :
    forall j t, threads s !! j = Some t ->
                thread_ok b0 (threads s) (content s) t
}.

End Store.


(** ** Sample data: a working directory with two Markdown files *)

Module Demo.

Definition doc_a : bytes := list_byte_of_string "# A".
Definition doc_b : bytes := list_byte_of_string "# B".

(** The directory [/w] with [a.md] and [b.md] last written at the given
    times; [None] stands for a file that is not there. *)
Definition dir (ta tb : option Z) : fsview :=
  {| fs_abs := fun p => Some ("/w/" +:+ p);
     fs_stat := fun a =>
       if String.eqb a "/w/a.md" then ta
       else if String.eqb a "/w/b.md" then tb
       else None;
     fs_read := fun p =>
       if String.eqb p "a.md"
       then match ta with
            | Some _ => Ok doc_a
            | None => Err "open a.md: no such file or directory"
            end
       else if String.eqb p "b.md"
       then match tb with
            | Some _ => Ok doc_b
            | None => Err "open b.md: no such file or directory"
            end
       else Err ("open " +:+ p +:+ ": no such file or directory") |}.

(** The session of [mdview a.md b.md] once the goroutines are started. *)
Definition two_files : Session.session :=
  Session.start (Combine.join_sources [doc_a; doc_b]) "a.md" ["a.md"; "b.md"].

(** [mdview missing.md --help] in an empty directory. *)
Definition help_after_missing : Startup.invocation :=
  {| Startup.inv_args := ["missing.md"; "--help"];
     Startup.inv_stdin_tty := true;
     Startup.inv_stdin := Ok [];
     Startup.inv_fs := dir None None;
     Startup.inv_listen := Ok 40000%N;
     Startup.inv_browser := None |}.

(** [mdview a.md missing.md] in a directory that holds [a.md] only. *)
Definition missing_second : Startup.invocation :=
  {| Startup.inv_args := ["a.md"; "missing.md"];
     Startup.inv_stdin_tty := true;
     Startup.inv_stdin := Ok [];
     Startup.inv_fs := dir (Some 100%Z) None;
     Startup.inv_listen := Ok 40000%N;
     Startup.inv_browser := None |}.

(** [cat a.md | mdview]. *)
Definition piped : Startup.invocation :=
  {| Startup.inv_args := [];
     Startup.inv_stdin_tty := false;
     Startup.inv_stdin := Ok doc_a;
     Startup.inv_fs := dir (Some 100%Z) (Some 90%Z);
     Startup.inv_listen := Ok 40000%N;
     Startup.inv_browser := None |}.

End Demo.


(** ** Sample data: a working directory with three Markdown files *)

Module Demo3.

Definition doc_c : bytes := list_byte_of_string "# C".

(** The directory [/w] with [a.md], [b.md] and [c.md] last written at the
    given times; [None] stands for a file that is not there. *)
Definition dir (ta tb tc : option Z) : fsview :=
  {| fs_abs := fun p => Some ("/w/" +:+ p);
     fs_stat := fun a =>
       if String.eqb a "/w/a.md" then ta
       else if String.eqb a "/w/b.md" then tb
       else if String.eqb a "/w/c.md" then tc
       else None;
     fs_read := fun p =>
       if String.eqb p "a.md"
       then match ta with
            | Some _ => Ok Demo.doc_a
            | None => Err "open a.md: no such file or directory"
            end
       else if String.eqb p "b.md"
       then match tb with
            | Some _ => Ok Demo.doc_b
            | None => Err "open b.md: no such file or directory"
            end
       else if String.eqb p "c.md"
       then match tc with
            | Some _ => Ok doc_c
            | None => Err "open c.md: no such file or directory"
            end
       else Err ("open " +:+ p +:+ ": no such file or directory") |}.


End Demo3.



(** ** The loops over Go maps, in a given order of iteration

    [for ch := range clients] and [for absPath, lastMod := range modTimes]
    visit every entry once, in an order the language leaves open. *)

Module Order.

Import Broadcaster Detector.

(** The loop of [notifyClients] (lines 343-348) visiting the channels in
    the order [order]. *)
Definition notify_in_order (order : list nat) (heap : gmap nat chan)
  : gmap nat chan :=
  fold_left (fun h ch => signal ch h) order heap.

(** The loop of [watchFiles] over [modTimes] (lines 373-383) visiting the
    entries in the order [order]. *)
Definition poll_in_order (fs : fsview) (order : list (string * Z))
    (modTimes : gmap string Z) : gmap string Z * bool :=
  fold_left (fun acc kv => poll_path fs (fst kv) (snd kv) acc) order
    (modTimes, false).

End Order.

(** ** What an execution of the session shows from outside *)

Module Observe.

Import Broadcaster Detector Session.

(** The reload events written to the stream of [ch] so far. *)
Definition delivered (ch : nat) (s : session) : nat :=
  List.length (filter (fun c => c = ch) (reloads s)).

(** Whether the step [e] taken in [s] is a tick that finds a change. *)
Definition refreshing (e : event) (s : session) : bool :=
  match e, watch s with
  | Tick fs, Polling _ modTimes => snd (poll fs modTimes)
  | _, _ => false
  end.

(** The ticks of an execution that found a change. *)
Fixpoint refreshes (tr : list event) (s : session) : nat :=
  match tr with
  | [] => 0
  | e :: rest => Nat.b2n (refreshing e s) + refreshes rest (step s e)
  end.

(** The stream handler of [ch] does not move in the step [e]. *)
Definition leaves_stream (ch : nat) (e : event) : bool :=
  match e with
  | Deliver c | Disconnect c => negb (c =? ch)%nat
  | _ => true
  end.

Definition is_sample (e : event) : bool :=
  match e with
  | Sample => true
  | _ => false
  end.

(** The answers of [fs], except that [os.Stat] fails for [a]. *)
Definition vanish (a : string) (fs : fsview) : fsview :=
  {| fs_abs := fs_abs fs;
     fs_stat := fun k => if decide (k = a) then None else fs_stat fs k;
     fs_read := fs_read fs |}.

(** The watcher of a session started on [args]. *)
Definition watches (args : list string) (s : session) : Prop :=
  match watch s with
  | NotStarted | Stopped => True
  | Spawned paths | Polling paths _ => paths = args
  end.

(** The snapshot is the one of startup or what a tick of the execution
    could read. *)
Definition snapshot_of (c0 : bytes) (args : list string) (tr : list event)
    (c : bytes) : Prop :=
  c = c0 \/
  exists fs, Tick fs ∈ tr /\
             c = Combine.join_sources (Combine.readable fs args).

End Observe.


(** ** The goroutines of the store at rest *)

Module StoreObs.

Import Store.

(** The goroutine has run to its end. *)
Definition finished (t : thread) : bool :=
  match t with
  | Reader RDone _ _ | Writer WDone _ _ => true
  | _ => false
  end.

End StoreObs.


(** ** Opening the browser (openBrowser, lines 406-425) *)

Module Browser.

(** [strings.ReplaceAll(url, "&", "^&")]. *)
Fixpoint escape_amp (url : string) : string :=
  match url with
  | EmptyString => EmptyString
  | String c rest =>
      if Ascii.eqb c "&"
      then String "^" (String "&" (escape_amp rest))
      else String c (escape_amp rest)
  end.

(** The [switch runtime.GOOS]: the command and its arguments, or the error
    of the [default] case. *)
Definition command (goos url : string) : result (string * list string) :=
  if String.eqb goos "darwin" then Ok ("open", [url])
  else if String.eqb goos "linux" then Ok ("xdg-open", [url])
  else if String.eqb goos "windows"
       then Ok ("cmd", ["/c"; "start"; escape_amp url])
  else Err ("unsupported platform: " +:+ goos).

(** [openBrowser]: [spawn] is what [exec.Command(cmd, args...).Start()]
    answers, [None] when the process was started. *)
Definition openBrowser (spawn : string -> list string -> option string)
    (goos url : string) : option string :=
  match command goos url with
  | Err e => Some e
  | Ok (cmd, args) => spawn cmd args
  end.

(** The URL [run] builds for the port it listens on. *)
Definition url_of (port : N) : string := "http://localhost:" +:+ pretty port.

(** No byte of the string is an ampersand. *)
Fixpoint no_amp (s : string) : bool :=
  match s with
  | EmptyString => true
  | String c rest => negb (Ascii.eqb c "&") && no_amp rest
  end.

End Browser.

(** ** Sample data: invocations *)

Module DemoRun.

(** [mdview a.md b.md] in the directory [/w] holding both files. *)
Definition two_files : Startup.invocation :=
  {| Startup.inv_args := ["a.md"; "b.md"];
     Startup.inv_stdin_tty := true;
     Startup.inv_stdin := Ok [];
     Startup.inv_fs := Demo.dir (Some 100%Z) (Some 90%Z);
     Startup.inv_listen := Ok 40000%N;
     Startup.inv_browser := None |}.

(** The same invocation on a machine where the browser cannot be
    started. *)
Definition no_browser : Startup.invocation :=
  {| Startup.inv_args := ["a.md"; "b.md"];
     Startup.inv_stdin_tty := true;
     Startup.inv_stdin := Ok [];
     Startup.inv_fs := Demo.dir (Some 100%Z) (Some 90%Z);
     Startup.inv_listen := Ok 40000%N;
     Startup.inv_browser := Some "exec: xdg-open: not found" |}.

(** The directory [/w] after [a.md] and [b.md] were written again and
    made unreadable: both can be examined, neither can be opened. *)
Definition locked : fsview :=
  {| fs_abs := fun p => Some ("/w/" +:+ p);
     fs_stat := fun a =>
       if String.eqb a "/w/a.md" then Some 120%Z
       else if String.eqb a "/w/b.md" then Some 120%Z
       else None;
     fs_read := fun p => Err ("open " +:+ p +:+ ": permission denied") |}.

End DemoRun.


(** ** Invocations that differ in the browser only, and the end of the
       process (run, lines 194-204; main, lines 61-64) *)

Module StartupObs.

Import Startup.

Definition with_browser (b : option string) (inv : invocation) : invocation :=
  {| inv_args := inv_args inv;
     inv_stdin_tty := inv_stdin_tty inv;
     inv_stdin := inv_stdin inv;
     inv_fs := inv_fs inv;
     inv_listen := inv_listen inv;
     inv_browser := b |}.

(** Every named file can be read. *)
Definition all_readable (inv : invocation) : Prop :=
  Forall (fun p => exists d, fs_read (inv_fs inv) p = Ok d) (inv_args inv).



(** The end of [run] (lines 194-204) and of [main] (lines 61-64) once the
    [select] has taken the case [c]: the message of the case, then
    [server.Shutdown], whose error [down], if there is one, [run] returns
    and [main] prints before [os.Exit(1)]; without error [main] returns and
    the status is 0. *)
Definition finish (c : Session.cause) (down : option string)
  : list effect * Z :=
  (match c with
   | Session.Interrupt => [Stderr (nl +:+ "Shutting down..." +:+ nl)]
   | Session.Drained =>
       [Stderr ("Browser disconnected, shutting down..." +:+ nl)]
   | Session.Cancelled => []
   end
   ++ match down with
      | Some e => [Stderr ("mdview: " +:+ e +:+ nl)]
      | None => []
      end,
   match down with
   | Some _ => 1%Z
   | None => 0%Z
   end).

(** The exit status of the process, if it has ended: the one of the startup
    for an invocation that does not get to serve; for one that does, the
    one of [finish] once the execution [tr] of the session has made the
    [select] fire, and none as long as it has not. *)
Definition status (inv : invocation) (tr : list Session.event)
    (down : option string) : option Z :=
  match snd (main inv) with
  | Exit code => Some code
  | Fail _ => Some 1%Z
  | Serving s =>
      match Session.shutdown (Session.exec tr s) with
      | Some c => Some (snd (finish c down))
      | None => None
      end
  end.


End StartupObs.


(** * Properties *)

(** ** Combining the sources *)

Module CombineFacts.

Import Combine.

Lemma append_source_nil (data : bytes) : append_source [] data = data.
Proof. reflexivity. Qed.

Lemma append_source_cons (b : byte) (acc data : bytes) :
  append_source (b :: acc) data = (b :: acc) ++ boundary ++ data.
Proof. unfold append_source. simpl. by rewrite <- app_assoc. Qed.

(** Once something has been written, every further source is preceded by
    one boundary, whatever its length. *)
Lemma fold_append_cons (sources : list bytes) (b : byte) (acc : bytes) :
  fold_left append_source sources (b :: acc)
  = (b :: acc) ++ concat (map (app boundary) sources).
Proof.
  revert b acc. induction sources as [|s rest IH]; intros b acc.
  - simpl. by rewrite app_nil_r.
  - cbn [fold_left map concat]. rewrite append_source_cons.
    cbn [app]. rewrite IH. cbn [app]. f_equal.
    by rewrite <- !app_assoc.
Qed.

Lemma sep_join_cons (s : bytes) (rest : list bytes) :
  sep_join (s :: rest) = s ++ concat (map (app boundary) rest).
Proof.
  revert s. induction rest as [|s' rest IH]; intros s.
  - simpl. by rewrite app_nil_r.
  - change (sep_join (s :: s' :: rest))
      with (s ++ boundary ++ sep_join (s' :: rest)).
    rewrite IH. cbn [map concat]. by rewrite <- !app_assoc.
Qed.

Lemma join_sources_drop (sources : list bytes) :
  join_sources sources = sep_join (drop_empty_prefix sources).
Proof.
  unfold join_sources. induction sources as [|s rest IH]; [done|].
  destruct s as [|b s].
  - cbn [fold_left drop_empty_prefix is_empty]. by rewrite append_source_nil.
  - cbn [fold_left drop_empty_prefix is_empty]. rewrite append_source_nil.
    by rewrite fold_append_cons, sep_join_cons.
Qed.

Lemma drop_empty_prefix_filter (sources : list bytes) :
  drop_empty_prefix (filter (fun s => negb (is_empty s)) sources)
  = filter (fun s => negb (is_empty s)) sources.
Proof.
  induction sources as [|s rest IH]; [done|].
  destruct s as [|b s]; [exact IH|].
  rewrite filter_cons_True by done. reflexivity.
Qed.

Lemma reread_fold (fs : fsview) (paths : list string) (acc : bytes) :
  reread fs paths acc = fold_left append_source (readable fs paths) acc.
Proof.
  revert acc. induction paths as [|p rest IH]; intros acc; [done|].
  unfold readable. cbn [reread omap list_omap].
  destruct (fs_read fs p) as [data|e]; simpl; apply IH.
Qed.

Lemma read_args_fold (fs : fsview) (args : list string) (acc : bytes) :
  read_args fs args acc
  = result_map (fun l => fold_left append_source l acc) (read_all fs args).
Proof.
  revert acc. induction args as [|a rest IH]; intros acc; [done|].
  cbn [read_args read_all]. destruct (fs_read fs a) as [data|e]; [|done].
  rewrite IH. by destruct (read_all fs rest).
Qed.

(** C1, as amended.  Both loops compute [join_sources] of what they read;
    the result is the run of sources from the first non-empty one on,
    with one boundary before each later source, empty or not: nothing
    precedes the first non-empty source.  On a list without empty sources
    this is one boundary between neighbours and none at either end, and
    the sources "# A", "# B" give "# A\n\n# B". *)
Theorem join_boundary_placement :
  (forall fs args,
      read_args fs args [] = result_map join_sources (read_all fs args)) /\
  (forall fs paths, reread fs paths [] = join_sources (readable fs paths)) /\
  (forall sources,
      join_sources sources = sep_join (drop_empty_prefix sources)) /\
  (forall sources,
      join_sources (filter (fun s => negb (is_empty s)) sources)
      = spec_join sources) /\
  join_sources [list_byte_of_string "# A"; list_byte_of_string "# B"]
  = list_byte_of_string "# A" ++ [x0a; x0a] ++ list_byte_of_string "# B".
Proof.
  split; [intros; apply read_args_fold|].
  split; [intros; apply reread_fold|].
  split; [apply join_sources_drop|].
  split; [|reflexivity].
  intros sources. unfold spec_join.
  by rewrite join_sources_drop, drop_empty_prefix_filter.
Qed.

(** C1, as stated, fails: an empty source that follows a non-empty one is
    given a boundary of its own, here a trailing one. *)
Lemma join_empty_source_counterexample :
  ~ (forall sources, join_sources sources = spec_join sources).
Proof.
  intros H. specialize (H [list_byte_of_string "# A"; []]).
  vm_compute in H. discriminate H.
Qed.

End CombineFacts.


(** ** The viewer registry *)

Module BroadcasterFacts.

Import Broadcaster.

Lemma try_send_single_slot (c : chan) :
  single_slot c -> single_slot (fst (try_send c)) /\
                   chan_len (fst (try_send c)) = 1.
Proof.
  intros [Hcap Hlen]. unfold try_send, single_slot.
  destruct (chan_len c <? chan_cap c)%nat eqn:E; simpl.
  - apply Nat.ltb_lt in E. lia.
  - apply Nat.ltb_ge in E. lia.
Qed.

(** A full slot takes the [default] branch: the channel is as before. *)
Lemma try_send_full (c : chan) :
  chan_cap c = 1 -> chan_len c = 1 -> try_send c = (c, false).
Proof. intros Hcap Hlen. unfold try_send. by rewrite Hcap, Hlen. Qed.

(** The loop of [notifyClients], channel by channel. *)
Lemma lookup_signal_fold (h : gmap nat chan) (X : gset nat) (ch : nat) :
  set_fold signal h X !! ch
  = if decide (ch ∈ X) then (fun c => fst (try_send c)) <$> h !! ch
    else h !! ch.
Proof.
  revert ch.
  refine (set_fold_ind_L
            (fun (r : gmap nat chan) (Y : gset nat) =>
               forall ch, r !! ch
                 = if decide (ch ∈ Y)
                   then (fun c => fst (try_send c)) <$> h !! ch
                   else h !! ch) signal h _ _ X).
  - intros ch. rewrite decide_False; [done|]. apply not_elem_of_empty.
  - intros x Y r Hx IH ch. unfold signal. rewrite lookup_alter.
    destruct (decide (x = ch)) as [->|Hne].
    + rewrite IH. rewrite decide_False by done.
      rewrite decide_True; [done|]. apply elem_of_union. left.
      by apply elem_of_singleton.
    + rewrite IH. destruct (decide (ch ∈ Y)) as [HY|HY].
      * rewrite decide_True; [done|]. apply elem_of_union. by right.
      * rewrite decide_False; [done|].
        intros [Hs|HY']%elem_of_union; [|done].
        apply elem_of_singleton in Hs. congruence.
Qed.

Lemma well_formed_empty : well_formed empty.
Proof. intros ch Hch. simpl in Hch. by apply not_elem_of_empty in Hch. Qed.

Lemma well_formed_subscribe (r : registry) :
  well_formed r -> well_formed (fst (subscribe r)).
Proof.
  intros Hwf ch Hch. simpl in *.
  destruct (decide (ch = fresh (dom (chans r)))) as [->|Hne].
  - exists (make_chan 1). rewrite lookup_insert_eq.
    split; [done|]. unfold single_slot, make_chan. simpl. lia.
  - rewrite lookup_insert_ne by done. apply Hwf.
    apply elem_of_union in Hch as [Hs|Hc]; [|done].
    by apply elem_of_singleton in Hs.
Qed.

Lemma well_formed_unsubscribe (ch : nat) (r : registry) :
  well_formed r -> well_formed (unsubscribe ch r).
Proof.
  intros Hwf ch' Hch'. simpl in *. apply Hwf.
  by apply elem_of_difference in Hch' as [Hin _].
Qed.

Lemma well_formed_notify (r : registry) :
  well_formed r -> well_formed (notifyClients r).
Proof.
  intros Hwf ch Hch. simpl in *. destruct (Hwf ch Hch) as (c & Hc & Hs).
  exists (fst (try_send c)). rewrite lookup_signal_fold.
  rewrite decide_True by done. rewrite Hc. split; [done|].
  by apply try_send_single_slot.
Qed.

Lemma well_formed_receive (ch : nat) (r r' : registry) :
  well_formed r -> receive ch r = Some r' -> well_formed r'.
Proof.
  intros Hwf Hr ch' Hch'. unfold receive in Hr.
  destruct (decide (ch ∈ clients r)) as [Hin|]; [|done].
  destruct (chans r !! ch) as [c|] eqn:Hc; [|done]. simpl in Hr.
  unfold try_recv in Hr. destruct (chan_len c) as [|n] eqn:Hn; [done|].
  simpl in Hr. injection Hr as <-. simpl in *.
  destruct (decide (ch' = ch)) as [->|Hne].
  - rewrite lookup_insert_eq. eexists; split; [done|].
    destruct (Hwf ch Hin) as (c0 & Hc0 & Hcap & Hlen).
    rewrite Hc in Hc0. injection Hc0 as <-.
    unfold single_slot. simpl. lia.
  - rewrite lookup_insert_ne by done. by apply Hwf.
Qed.

Lemma well_formed_apply (o : op) (r : registry) :
  well_formed r -> well_formed (apply o r).
Proof.
  intros Hwf. destruct o as [|ch| |ch]; simpl.
  - by apply well_formed_subscribe.
  - by apply well_formed_unsubscribe.
  - by apply well_formed_notify.
  - destruct (receive ch r) as [r'|] eqn:Hr; simpl; [|done].
    by eapply well_formed_receive.
Qed.

Lemma well_formed_run_ops (ops : list op) (r : registry) :
  well_formed r -> well_formed (run_ops ops r).
Proof.
  revert r. induction ops as [|o ops IH]; intros r Hwf; [done|].
  simpl. apply IH. by apply well_formed_apply.
Qed.

Lemma pending_notify (r : registry) (ch : nat) :
  well_formed r -> ch ∈ clients r ->
  pending r ch <= 1 /\ pending (notifyClients r) ch = 1 /\
  (pending r ch = 1 -> chans (notifyClients r) !! ch = chans r !! ch).
Proof.
  intros Hwf Hch. destruct (Hwf ch Hch) as (c & Hc & Hs).
  unfold pending. simpl. rewrite lookup_signal_fold.
  rewrite decide_True by done. rewrite Hc. simpl.
  destruct (try_send_single_slot c Hs) as [_ Hone].
  destruct Hs as [Hcap Hlen].
  split; [done|]. split; [done|].
  intros Hfull. by rewrite try_send_full.
Qed.

(** C4.  In every registry that subscribing, unsubscribing, receiving and
    notifying can produce, a registered channel holds at most one signal;
    after [notifyClients] it holds exactly one, the registry is the same
    set, and a channel whose slot was already taken is left as it was (the
    new signal takes the [default] branch of the [select] and is dropped).
    [notifyClients] is a total function: no send waits. *)
Theorem notify_fills_every_slot (ops : list op) (ch : nat) :
  ch ∈ clients (run_ops ops empty) ->
  pending (run_ops ops empty) ch <= 1 /\
  pending (notifyClients (run_ops ops empty)) ch = 1 /\
  clients (notifyClients (run_ops ops empty)) = clients (run_ops ops empty) /\
  (pending (run_ops ops empty) ch = 1 ->
   chans (notifyClients (run_ops ops empty)) !! ch
   = chans (run_ops ops empty) !! ch).
Proof.
  intros Hch.
  pose proof (well_formed_run_ops ops empty well_formed_empty) as Hwf.
  destruct (pending_notify _ ch Hwf Hch) as (H1 & H2 & H3).
  repeat split; auto.
Qed.

(** Two viewers subscribe, a change is notified, the first viewer takes its
    signal, and a third viewer subscribes: the next [notifyClients] leaves
    one signal in the channel of the second viewer, which already had one. *)
Lemma notify_fills_every_slot_witness :
  1 ∈ clients (run_ops [OpSubscribe; OpSubscribe; OpNotify; OpReceive 0;
                    OpSubscribe] empty) /\
  pending (run_ops [OpSubscribe; OpSubscribe; OpNotify; OpReceive 0;
                OpSubscribe] empty) 1 = 1 /\
  pending (notifyClients (run_ops [OpSubscribe; OpSubscribe; OpNotify;
                               OpReceive 0; OpSubscribe] empty)) 1 = 1.
Proof.
  assert (Hin : 1 ∈ clients (run_ops [OpSubscribe; OpSubscribe; OpNotify;
                                  OpReceive 0; OpSubscribe] empty)).
  { apply (bool_decide_unpack _). vm_compute. exact I. }
  split; [exact Hin|]. split; [vm_compute; reflexivity|].
  exact (proj1 (proj2 (notify_fills_every_slot _ 1 Hin))).
Defined.

End BroadcasterFacts.


(** ** The change detector *)

Module DetectorFacts.

Import Detector.

Lemma fold_record_lookup (fs : fsview) (paths : list string)
    (m : gmap string Z) (a : string) :
  fold_left (record_path fs) paths m !! a
  = if decide (a ∈ tracked fs paths)
    then match fs_stat fs a with
         | Some t => Some t
         | None => m !! a
         end
    else m !! a.
Proof.
  revert m. induction paths as [|p rest IH]; intros m.
  - cbn [fold_left]. rewrite decide_False; [done|].
    unfold tracked. simpl. apply not_elem_of_nil.
  - cbn [fold_left]. rewrite IH. unfold tracked in *. cbn [omap list_omap].
    unfold record_path.
    destruct (fs_abs fs p) as [abs|] eqn:Habs; [|done].
    destruct (decide (a = abs)) as [->|Hne].
    + rewrite (decide_True (P := abs ∈ abs :: _))
        by apply list_elem_of_here.
      destruct (fs_stat fs abs) as [t|] eqn:Hst.
      * rewrite lookup_insert_eq. by destruct (decide _).
      * by destruct (decide _).
    + destruct (decide (a ∈ omap (fs_abs fs) rest)) as [Hin|Hnin].
      * rewrite decide_True by by apply list_elem_of_further.
        destruct (fs_stat fs a); [done|].
        destruct (fs_stat fs abs); [|done]. by rewrite lookup_insert_ne.
      * rewrite decide_False by (intros [Heq|Hin]%elem_of_cons; done).
        destruct (fs_stat fs abs); [|done]. by rewrite lookup_insert_ne.
Qed.

(** The map of the prologue: the modification time of every listed path
    that resolves and can be examined, and nothing else. *)
Lemma baseline_lookup (fs : fsview) (paths : list string) (a : string) :
  baseline fs paths !! a
  = if decide (a ∈ tracked fs paths) then fs_stat fs a else None.
Proof.
  unfold baseline. rewrite fold_record_lookup, lookup_empty.
  destruct (decide _); [|done]. by destruct (fs_stat fs a).
Qed.

Lemma latest_advances (fs : fsview) (a : string) (last : Z) :
  latest fs a last <> last <->
  exists t, fs_stat fs a = Some t /\ (last < t)%Z.
Proof.
  unfold latest. destruct (fs_stat fs a) as [t|].
  - destruct (last <? t)%Z eqn:E.
    + apply Z.ltb_lt in E. split; [eauto|]. intros _. lia.
    + apply Z.ltb_ge in E. split; [done|]. intros (t' & [= <-] & Hlt). lia.
  - split; [done|]. by intros (t & Ht & _).
Qed.

(** The loop over [modTimes], entry by entry, from any starting value. *)
Lemma poll_fold_spec (fs : fsview) (base m : gmap string Z) :
  let r := map_fold (poll_path fs) (base, false) m in
  (forall a, fst r !! a = match m !! a with
                         | Some last =>
                             if decide (latest fs a last = last)
                             then base !! a
                             else Some (latest fs a last)
                         | None => base !! a
                         end) /\
  (snd r = true <->
   exists a last t, m !! a = Some last /\ fs_stat fs a = Some t /\
                    (last < t)%Z).
Proof.
  refine (map_fold_weak_ind
            (fun (r : gmap string Z * bool) (m : gmap string Z) =>
               (forall a, fst r !! a = match m !! a with
                                      | Some last =>
                                          if decide (latest fs a last = last)
                                          then base !! a
                                          else Some (latest fs a last)
                                      | None => base !! a
                                      end) /\
               (snd r = true <->
                exists a last t, m !! a = Some last /\
                                 fs_stat fs a = Some t /\ (last < t)%Z))
            (poll_path fs) (base, false) _ _ m).
  - split.
    + intros a. by rewrite lookup_empty.
    + simpl. split; [done|]. intros (a & last & t & Hm & _).
      by rewrite lookup_empty in Hm.
  - intros i x m' r Hi [IHm IHc]. unfold poll_path.
    destruct (fs_stat fs i) as [t|] eqn:Hst.
    + destruct (x <? t)%Z eqn:E.
      * apply Z.ltb_lt in E. split.
        -- intros a. cbn [fst]. destruct (decide (a = i)) as [->|Hne].
           ++ rewrite !lookup_insert_eq. unfold latest. rewrite Hst.
              assert ((x <? t)%Z = true) as -> by by apply Z.ltb_lt.
              rewrite decide_False by lia. done.
           ++ rewrite !lookup_insert_ne by done. apply IHm.
        -- cbn [snd]. split; [|done]. intros _. exists i, x, t.
           by rewrite lookup_insert_eq.
      * apply Z.ltb_ge in E. split.
        -- intros a. destruct (decide (a = i)) as [->|Hne].
           ++ rewrite lookup_insert_eq. rewrite IHm, Hi.
              unfold latest. rewrite Hst.
              assert ((x <? t)%Z = false) as -> by by apply Z.ltb_ge.
              by rewrite decide_True.
           ++ rewrite lookup_insert_ne by done. apply IHm.
        -- rewrite IHc. split.
           ++ intros (a & last & t' & Hm & Hs & Hlt). exists a, last, t'.
              rewrite lookup_insert_ne; [done|]. intros ->. congruence.
           ++ intros (a & last & t' & Hm & Hs & Hlt).
              destruct (decide (a = i)) as [->|Hne].
              ** rewrite lookup_insert_eq in Hm. injection Hm as <-.
                 rewrite Hst in Hs. injection Hs as <-. lia.
              ** rewrite lookup_insert_ne in Hm by done. eauto 6.
    + split.
      * intros a. destruct (decide (a = i)) as [->|Hne].
        -- rewrite lookup_insert_eq. rewrite IHm, Hi.
           unfold latest. rewrite Hst. by rewrite decide_True.
        -- rewrite lookup_insert_ne by done. apply IHm.
      * rewrite IHc. split.
        -- intros (a & last & t' & Hm & Hs & Hlt). exists a, last, t'.
           rewrite lookup_insert_ne; [done|]. intros ->. congruence.
        -- intros (a & last & t' & Hm & Hs & Hlt).
           destruct (decide (a = i)) as [->|Hne]; [congruence|].
           rewrite lookup_insert_ne in Hm by done. eauto 6.
Qed.

(** After a poll every entry holds the later of its old value and the
    modification time found. *)
Lemma poll_lookup (fs : fsview) (modTimes : gmap string Z) (a : string) :
  fst (poll fs modTimes) !! a = latest fs a <$> modTimes !! a.
Proof.
  destruct (poll_fold_spec fs modTimes modTimes) as [H _]. unfold poll.
  rewrite H. destruct (modTimes !! a) as [last|] eqn:Ha; [|done].
  simpl. destruct (decide _) as [->|]; done.
Qed.

(** [changed] is set exactly when some recorded path is found with a
    strictly later modification time. *)
Lemma poll_changed (fs : fsview) (modTimes : gmap string Z) :
  snd (poll fs modTimes) = true <->
  exists a last t, modTimes !! a = Some last /\ fs_stat fs a = Some t /\
                   (last < t)%Z.
Proof. apply (poll_fold_spec fs modTimes modTimes). Qed.

Lemma poll_dom (fs : fsview) (modTimes : gmap string Z) :
  dom (fst (poll fs modTimes)) = dom modTimes.
Proof.
  apply set_eq. intros a. rewrite !elem_of_dom, poll_lookup.
  by rewrite fmap_is_Some.
Qed.

Lemma poll_unchanged (fs : fsview) (modTimes : gmap string Z) :
  snd (poll fs modTimes) = false -> fst (poll fs modTimes) = modTimes.
Proof.
  intros Hc. apply map_eq. intros a. rewrite poll_lookup.
  destruct (modTimes !! a) as [last|] eqn:Ha; [|done]. simpl. f_equal.
  destruct (decide (latest fs a last = last)) as [|Hne]; [done|].
  apply latest_advances in Hne as (t & Ht & Hlt).
  assert (snd (poll fs modTimes) = true) by (apply poll_changed; eauto 6).
  congruence.
Qed.

(** A poll looks at the recorded paths only. *)
Lemma poll_touch (fs : fsview) (modTimes : gmap string Z) (a : string)
    (t : Z) :
  a ∉ dom modTimes -> poll (touch a t fs) modTimes = poll fs modTimes.
Proof.
  intros Ha. apply not_elem_of_dom in Ha.
  assert (Hstat : forall k, is_Some (modTimes !! k) ->
                            fs_stat (touch a t fs) k = fs_stat fs k).
  { intros k [v Hk]. simpl. destruct (decide (k = a)) as [->|]; [|done].
    congruence. }
  destruct (poll (touch a t fs) modTimes) as [m1 c1] eqn:E1.
  destruct (poll fs modTimes) as [m2 c2] eqn:E2.
  f_equal.
  - change m1 with (fst (m1, c1)). change m2 with (fst (m2, c2)).
    rewrite <- E1, <- E2. apply map_eq. intros k. rewrite !poll_lookup.
    destruct (modTimes !! k) as [last|] eqn:Hk; [|done]. simpl.
    unfold latest. by rewrite Hstat by eauto.
  - change c1 with (snd (m1, c1)). change c2 with (snd (m2, c2)).
    rewrite <- E1, <- E2.
    apply eq_true_iff_eq. rewrite !poll_changed.
    split; intros (k & last & t' & Hk & Hs & Hlt); exists k, last, t'.
    + by rewrite <- Hstat by eauto.
    + by rewrite Hstat by eauto.
Qed.

End DetectorFacts.


(** ** The change detector inside the session *)

Module WatchFacts.

Import Broadcaster Detector Session DetectorFacts.

Lemma tick_unchanged (fs : fsview) (paths : list string)
    (modTimes : gmap string Z) (s : session) :
  snd (poll fs modTimes) = false ->
  tick fs paths modTimes s = with_watch (Polling paths modTimes) s.
Proof.
  intros Hc. unfold tick. pose proof (poll_unchanged fs modTimes Hc) as Hm.
  destruct (poll fs modTimes) as [m c]. simpl in *. by subst.
Qed.

Lemma tick_changed (fs : fsview) (paths : list string)
    (modTimes : gmap string Z) (s : session) :
  snd (poll fs modTimes) = true ->
  tick fs paths modTimes s
  = with_watch (Polling paths (fst (poll fs modTimes)))
      (with_viewers (notifyClients (viewers s))
         (with_content (Combine.reread fs paths []) s)).
Proof.
  intros Hc. unfold tick. destruct (poll fs modTimes) as [m c].
  simpl in *. by subst.
Qed.

(** A refresh installs the join of what it could read, keeps polling the
    same paths, and notifies. *)
Lemma refresh_step (fs : fsview) (paths : list string)
    (modTimes : gmap string Z) (s : session) :
  watch s = Polling paths modTimes ->
  snd (poll fs modTimes) = true ->
  content (step s (Tick fs))
  = Combine.join_sources (Combine.readable fs paths) /\
  watch (step s (Tick fs)) = Polling paths (fst (poll fs modTimes)) /\
  viewers (step s (Tick fs)) = notifyClients (viewers s).
Proof.
  intros Hw Hc. cbn [step]. rewrite Hw, tick_changed by done.
  cbn. by rewrite CombineFacts.reread_fold.
Qed.

(** How one step moves the watcher. *)
Lemma watch_step (s : session) (e : event) :
  watch (step s e) = watch s \/
  (exists fs paths, e = WatchStart fs /\ watch s = Spawned paths /\
                    watch (step s e) = Polling paths (baseline fs paths)) \/
  (exists fs paths modTimes,
      e = Tick fs /\ watch s = Polling paths modTimes /\
      watch (step s e) = Polling paths (fst (poll fs modTimes))) \/
  (exists paths modTimes,
      e = WatchStop /\ watch s = Polling paths modTimes /\
      watch (step s e) = Stopped).
Proof.
  destruct e as [|ch|ch|fs|fs| | | |]; cbn [step].
  - by left.
  - by left.
  - left. by destruct (receive ch (viewers s)).
  - destruct (watch s) as [|paths|paths m|] eqn:Hw; auto.
    right; left. by exists fs, paths.
  - destruct (watch s) as [|paths|paths m|] eqn:Hw; auto.
    right; right; left. exists fs, paths, m. split; [done|]. split; [done|].
    unfold tick. destruct (poll fs m) as [m' c]. by destruct c.
  - destruct (watch s) as [|paths|paths m|] eqn:Hw; auto.
    destruct (ctx_done s); auto.
    right; right; right. by exists paths, m.
  - left. cbv zeta.
    by destruct (mon s),
         (Lifecycle.sample (population (viewers s)) (ctx_done s) _).
  - by left.
  - by left.
Qed.

Lemma polls_step (paths : list string) (keys : gset string) (s : session)
    (e : event) :
  polls paths keys s -> polls paths keys (step s e).
Proof.
  unfold polls. intros H.
  destruct (watch_step s e)
    as [->|[(fs & ps & _ & Hw & _)|[(fs & ps & m & _ & Hw & ->)
                                   |(ps & m & _ & _ & ->)]]];
    try done.
  - by rewrite Hw in H.
  - rewrite Hw in H. destruct H as [-> <-]. by rewrite poll_dom.
Qed.

Lemma polls_exec (paths : list string) (keys : gset string)
    (tr : list event) (s : session) :
  polls paths keys s -> polls paths keys (exec tr s).
Proof.
  revert s. induction tr as [|e tr IH]; intros s H; [done|].
  cbn. apply IH. by apply polls_step.
Qed.

Lemma record_path_skip (fs : fsview) (p : string) (m : gmap string Z) :
  (fs_abs fs p = None \/
   exists a, fs_abs fs p = Some a /\ fs_stat fs a = None) ->
  record_path fs m p = m.
Proof.
  unfold record_path. intros [->|(a & -> & ->)]; done.
Qed.

Lemma baseline_without (fs : fsview) (paths : list string) (p : string) :
  (fs_abs fs p = None \/
   exists a, fs_abs fs p = Some a /\ fs_stat fs a = None) ->
  baseline fs paths = baseline fs (filter (fun q => q <> p) paths).
Proof.
  intros Hp. unfold baseline. generalize (∅ : gmap string Z).
  induction paths as [|q rest IH]; intros m; [done|].
  cbn [fold_left]. destruct (decide (q = p)) as [->|Hne].
  - rewrite filter_cons_False by (intros H; by apply H).
    rewrite record_path_skip by done. apply IH.
  - rewrite filter_cons_True by done. cbn [fold_left]. apply IH.
Qed.

(** [touch] changes what [os.Stat] answers only. *)
Lemma reread_touch (a : string) (t : Z) (fs : fsview) (paths : list string)
    (acc : bytes) :
  Combine.reread (touch a t fs) paths acc = Combine.reread fs paths acc.
Proof.
  revert acc. induction paths as [|q rest IH]; intros acc; [done|].
  cbn [Combine.reread]. change (fs_read (touch a t fs) q) with (fs_read fs q).
  destruct (fs_read fs q); apply IH.
Qed.

End WatchFacts.


(** ** The claims on the change detector *)

Module WatchClaims.

Import Broadcaster Detector Session DetectorFacts WatchFacts.

(** C5.  The prologue of [watchFiles] records, for every listed path that
    resolves and can be examined, the modification time found at that
    moment; a poll sets [changed] exactly when some recorded path is found
    with a modification time strictly later than the recorded one, and then
    records the new time.  So a first tick that finds no file newer than at
    the start changes nothing and notifies nobody, and a tick that finds a
    tracked file strictly newer installs the re-read sources and notifies. *)
Theorem baseline_then_strict_advance (fs0 fs1 : fsview)
    (paths : list string) (s : session) :
  watch s = Spawned paths ->
  watch (step s (WatchStart fs0)) = Polling paths (baseline fs0 paths) /\
  (forall a, baseline fs0 paths !! a
             = if decide (a ∈ tracked fs0 paths) then fs_stat fs0 a
               else None) /\
  (forall modTimes,
      snd (poll fs1 modTimes) = true <->
      exists a last t, modTimes !! a = Some last /\
                       fs_stat fs1 a = Some t /\ (last < t)%Z) /\
  (forall modTimes a,
      fst (poll fs1 modTimes) !! a = latest fs1 a <$> modTimes !! a) /\
  ((forall a t0 t1, fs_stat fs0 a = Some t0 -> fs_stat fs1 a = Some t1 ->
                    (t1 <= t0)%Z) ->
   step (step s (WatchStart fs0)) (Tick fs1) = step s (WatchStart fs0)) /\
  (forall a t0 t1,
      a ∈ tracked fs0 paths ->
      fs_stat fs0 a = Some t0 -> fs_stat fs1 a = Some t1 -> (t0 < t1)%Z ->
      content (step (step s (WatchStart fs0)) (Tick fs1))
      = Combine.join_sources (Combine.readable fs1 paths) /\
      viewers (step (step s (WatchStart fs0)) (Tick fs1))
      = notifyClients (viewers s)).
Proof.
  intros Hw.
  assert (Hs1 : step s (WatchStart fs0)
                = with_watch (Polling paths (baseline fs0 paths)) s).
  { cbn [step]. by rewrite Hw. }
  split; [by rewrite Hs1|].
  split; [apply baseline_lookup|].
  split; [apply poll_changed|].
  split; [intros; apply poll_lookup|].
  split.
  - intros Hold. rewrite Hs1. cbn [step watch with_watch].
    rewrite tick_unchanged; [done|].
    destruct (snd (poll fs1 (baseline fs0 paths))) eqn:Hc; [|done].
    apply poll_changed in Hc as (a & last & t & Hb & Ht & Hlt).
    rewrite baseline_lookup in Hb. destruct (decide _); [|done].
    specialize (Hold a last t Hb Ht). lia.
  - intros a t0 t1 Ha H0 H1 Hlt.
    assert (Hc : snd (poll fs1 (baseline fs0 paths)) = true).
    { apply poll_changed. exists a, t0, t1. split; [|done].
      rewrite baseline_lookup. by rewrite decide_True. }
    destruct (refresh_step fs1 paths (baseline fs0 paths)
                (step s (WatchStart fs0))) as (Hcont & _ & Hview);
      [by rewrite Hs1|done|].
    rewrite Hcont, Hview. by rewrite Hs1.
Qed.

(** [mdview a.md b.md]: the first tick finds both files as they were at
    the start and leaves the session as it is; a tick after [b.md] was
    written installs the re-read sources. *)
Lemma baseline_then_strict_advance_witness :
  watch Demo.two_files = Spawned ["a.md"; "b.md"] /\
  step (step Demo.two_files
          (WatchStart (Demo.dir (Some 100%Z) (Some 90%Z))))
    (Tick (Demo.dir (Some 100%Z) (Some 90%Z)))
  = step Demo.two_files (WatchStart (Demo.dir (Some 100%Z) (Some 90%Z))) /\
  content (step (step Demo.two_files
                   (WatchStart (Demo.dir (Some 100%Z) (Some 90%Z))))
             (Tick (Demo.dir (Some 100%Z) (Some 150%Z))))
  = Combine.join_sources
      (Combine.readable (Demo.dir (Some 100%Z) (Some 150%Z))
         ["a.md"; "b.md"]).
Proof.
  split; [reflexivity|]. split.
  - apply (baseline_then_strict_advance
             (Demo.dir (Some 100%Z) (Some 90%Z))
             (Demo.dir (Some 100%Z) (Some 90%Z))
             ["a.md"; "b.md"] Demo.two_files); [reflexivity|].
    intros a t0 t1 H0 H1. rewrite H0 in H1. injection H1 as <-. lia.
  - apply (baseline_then_strict_advance
             (Demo.dir (Some 100%Z) (Some 90%Z))
             (Demo.dir (Some 100%Z) (Some 150%Z))
             ["a.md"; "b.md"] Demo.two_files eq_refl)
      with (a := "/w/b.md") (t0 := 90%Z) (t1 := 150%Z).
    + apply list_elem_of_further, list_elem_of_here.
    + reflexivity.
    + reflexivity.
    + lia.
Defined.




(** C10.  A listed path whose absolute form cannot be built, or that cannot
    be examined when the watcher starts, puts no entry into [modTimes]: the
    map is the one the other paths give.  No step of the session ever adds
    a key, so in every later state a tick gives the same result whatever
    modification time that path has by then; the path is still read by
    every refresh. *)
Theorem unrecorded_path_never_detected (fs0 : fsview) (paths : list string)
    (p : string) (s : session) (tr : list event) :
  (fs_abs fs0 p = None \/
   exists a, fs_abs fs0 p = Some a /\ fs_stat fs0 a = None) ->
  baseline fs0 paths = baseline fs0 (filter (fun q => q <> p) paths) /\
  (forall a, fs_abs fs0 p = Some a -> a ∉ dom (baseline fs0 paths)) /\
  (forall paths' modTimes',
      watch (exec tr (with_watch (Polling paths (baseline fs0 paths)) s))
      = Polling paths' modTimes' ->
      paths' = paths /\ dom modTimes' = dom (baseline fs0 paths)) /\
  (forall a t fs,
      a ∉ dom (baseline fs0 paths) ->
      step (exec tr (with_watch (Polling paths (baseline fs0 paths)) s))
        (Tick (touch a t fs))
      = step (exec tr (with_watch (Polling paths (baseline fs0 paths)) s))
          (Tick fs)) /\
  (forall fs paths' modTimes' d,
      watch (exec tr (with_watch (Polling paths (baseline fs0 paths)) s))
      = Polling paths' modTimes' ->
      snd (poll fs modTimes') = true ->
      p ∈ paths -> fs_read fs p = Ok d ->
      content (step (exec tr (with_watch (Polling paths
                                            (baseline fs0 paths)) s))
                 (Tick fs))
      = Combine.join_sources (Combine.readable fs paths) /\
      d ∈ Combine.readable fs paths).
Proof.
  intros Hp.
  set (s' := exec tr (with_watch (Polling paths (baseline fs0 paths)) s)).
  assert (Hpolls : polls paths (dom (baseline fs0 paths)) s').
  { apply polls_exec. by unfold polls. }
  assert (Hout : forall a, fs_abs fs0 p = Some a ->
                           a ∉ dom (baseline fs0 paths)).
  { intros a Ha. apply not_elem_of_dom. rewrite baseline_lookup.
    destruct (decide _); [|done].
    destruct Hp as [Hp|(a' & Ha' & Hst)]; congruence. }
  split; [by apply baseline_without|].
  split; [done|].
  split.
  { intros paths' m' Hw. unfold polls in Hpolls. by rewrite Hw in Hpolls. }
  split.
  { intros a t fs Ha. cbn [step]. unfold polls in Hpolls.
    destruct (watch s') as [|ps|ps m|] eqn:Hw; try done.
    destruct Hpolls as [-> Hdom]. unfold tick.
    rewrite poll_touch by by rewrite Hdom.
    by rewrite reread_touch. }
  intros fs paths' m' d Hw Hc Hin Hd. unfold polls in Hpolls.
  pose proof Hpolls as Hpolls'. rewrite Hw in Hpolls'.
  destruct Hpolls' as [-> _].
  destruct (refresh_step fs paths m' s' Hw Hc) as (Hcont & _).
  split; [done|]. apply list_elem_of_omap. exists p. by rewrite Hd.
Qed.

(** [mdview a.md b.md] started while [b.md] does not exist: [/w/b.md] has
    no entry, and once a file is written there the tick goes as if it had
    not been. *)
Lemma unrecorded_path_never_detected_witness :
  fs_stat (Demo.dir (Some 100%Z) None) "/w/b.md" = None /\
  ("/w/b.md"
   ∉ dom (baseline (Demo.dir (Some 100%Z) None) ["a.md"; "b.md"])) /\
  step (exec [Tick (Demo.dir (Some 100%Z) None)]
          (with_watch
             (Polling ["a.md"; "b.md"]
                (baseline (Demo.dir (Some 100%Z) None) ["a.md"; "b.md"]))
             Demo.two_files))
    (Tick (touch "/w/b.md" 500%Z (Demo.dir (Some 100%Z) None)))
  = step (exec [Tick (Demo.dir (Some 100%Z) None)]
            (with_watch
               (Polling ["a.md"; "b.md"]
                  (baseline (Demo.dir (Some 100%Z) None) ["a.md"; "b.md"]))
               Demo.two_files))
      (Tick (Demo.dir (Some 100%Z) None)).
Proof.
  pose proof (unrecorded_path_never_detected
                (Demo.dir (Some 100%Z) None) ["a.md"; "b.md"]
                "b.md" Demo.two_files
                [Tick (Demo.dir (Some 100%Z) None)]
                (or_intror (ex_intro _ "/w/b.md" (conj eq_refl eq_refl))))
    as (_ & Hout & _ & Htouch & _).
  split; [reflexivity|]. split; [by apply Hout|].
  apply Htouch. by apply Hout.
Defined.

End WatchClaims.


(** ** The lifecycle monitor *)

Module LifecycleFacts.

Import Lifecycle.

Lemma run_fired (obs : list (nat * bool)) : monitor_run obs Fired = Fired.
Proof. induction obs as [|o obs IH]; [done|]. exact IH. Qed.

Lemma run_returned (obs : list (nat * bool)) :
  monitor_run obs Returned = Returned.
Proof. induction obs as [|o obs IH]; [done|]. exact IH. Qed.

(** From the second loop: the trigger fires at the first sample that reads
    zero, unless the goroutine has left through the context before. *)
Lemma run_watching (obs : list (nat * bool)) :
  monitor_run obs Watching = Fired <->
  exists mid d post,
    obs = mid ++ (0, d) :: post /\
    Forall (fun o => 0 < fst o /\ snd o = false) mid.
Proof.
  induction obs as [|[n d] obs IH].
  - split; [done|]. intros (mid & d & post & H & _). by destruct mid.
  - cbn [monitor_run fold_left]. unfold observe at 2. cbn [fst snd sample].
    destruct n as [|n].
    + cbn. fold (monitor_run obs Fired). rewrite run_fired.
      split; [|done]. intros _. by exists [], d, obs.
    + cbn [Nat.eqb]. destruct d.
      * fold (monitor_run obs Returned). rewrite run_returned.
        split; [done|]. intros (mid & d & post & H & Hmid).
        destruct mid as [|o mid]; [done|].
        injection H as <- _. apply Forall_cons in Hmid as [[_ Hd] _]. done.
      * fold (monitor_run obs Watching). rewrite IH. split.
        -- intros (mid & d & post & -> & Hmid).
           exists ((S n, false) :: mid), d, post. split; [done|].
           apply Forall_cons. split; [|done]. simpl. split; [lia|done].
        -- intros (mid & d & post & H & Hmid).
           destruct mid as [|o mid]; [done|].
           injection H as <- ->. apply Forall_cons in Hmid as [_ Hmid].
           by exists mid, d, post.
Qed.

(** From the start: some sample must first read a viewer, and a later one
    must read zero. *)
Lemma run_waiting (obs : list (nat * bool)) :
  monitor_run obs Waiting = Fired <->
  exists pre n d mid d' post,
    obs = pre ++ (S n, d) :: mid ++ (0, d') :: post /\
    Forall (fun o => o = (0, false)) pre /\
    Forall (fun o => 0 < fst o /\ snd o = false) mid.
Proof.
  induction obs as [|[n d] obs IH].
  - split; [done|]. intros (pre & n & d & mid & d' & post & H & _).
    by destruct pre.
  - cbn [monitor_run fold_left]. unfold observe at 2. cbn [fst snd sample].
    destruct n as [|n].
    + cbn [Nat.ltb Nat.leb]. destruct d.
      * fold (monitor_run obs Returned). rewrite run_returned.
        split; [done|]. intros (pre & n & d & mid & d' & post & H & Hpre & _).
        destruct pre as [|o pre]; [done|].
        injection H as <- _. by apply Forall_cons in Hpre as [? _].
      * fold (monitor_run obs Waiting). rewrite IH. split.
        -- intros (pre & n & d & mid & d' & post & -> & Hpre & Hmid).
           exists ((0, false) :: pre), n, d, mid, d', post.
           split; [done|]. split; [|done]. by apply Forall_cons.
        -- intros (pre & n & d & mid & d' & post & H & Hpre & Hmid).
           destruct pre as [|o pre]; [done|].
           injection H as <- ->. apply Forall_cons in Hpre as [_ Hpre].
           by exists pre, n, d, mid, d', post.
    + change (0 <? S n)%nat with true. cbn iota.
      fold (monitor_run obs Watching). rewrite run_watching. split.
      * intros (mid & d' & post & -> & Hmid).
        by exists [], n, d, mid, d', post.
      * intros (pre & n' & d0 & mid & d' & post & H & Hpre & Hmid).
        destruct pre as [|o pre].
        -- injection H as _ _ ->. by exists mid, d', post.
        -- injection H as <- _. by apply Forall_cons in Hpre as [? _].
Qed.

End LifecycleFacts.


(** ** The claims on the lifecycle monitor *)

Module LifecycleClaims.

Import Broadcaster Lifecycle Session LifecycleFacts.

(** Only [Sample] moves the sampling goroutine. *)
Lemma mon_step (s : session) (e : event) :
  mon (step s e)
  = match e with
    | Sample => sample (population (viewers s)) (ctx_done s) (mon s)
    | _ => mon s
    end.
Proof.
  destruct e as [|ch|ch|fs|fs| | | |]; cbn [step]; try done.
  - by destruct (receive ch (viewers s)).
  - by destruct (watch s).
  - destruct (watch s) as [| |paths m|]; try done.
    unfold tick. destruct (Detector.poll fs m) as [m' c]. by destruct c.
  - destruct (watch s); try done. by destruct (ctx_done s).
  - cbv zeta.
    by destruct (mon s), (sample (population (viewers s)) (ctx_done s) _).
Qed.

Lemma mon_exec (tr : list event) (s : session) :
  mon (exec tr s) = monitor_run (observations tr s) (mon s).
Proof.
  revert s. induction tr as [|e tr IH]; intros s; [done|].
  cbn [exec fold_left observations]. fold (exec tr (step s e)).
  rewrite IH, mon_step. by destruct e.
Qed.

(** The [select] of [run] is taken once. *)
Lemma shutdown_step (s : session) (e : event) (c : cause) :
  shutdown s = Some c -> shutdown (step s e) = Some c.
Proof.
  intros Hs.
  assert (Hkeep : forall c' s', shutdown s' = Some c ->
                                shutdown (trigger c' s') = Some c).
  { intros c' s' Hs'. unfold trigger. cbn. by rewrite Hs'. }
  destruct e as [|ch|ch|fs|fs| | | |]; cbn [step]; try done.
  - by destruct (receive ch (viewers s)).
  - by destruct (watch s).
  - destruct (watch s) as [| |paths m|]; try done.
    unfold tick. destruct (Detector.poll fs m) as [m' c']. by destruct c'.
  - destruct (watch s); try done. by destruct (ctx_done s).
  - cbv zeta.
    destruct (mon s), (sample (population (viewers s)) (ctx_done s) _);
      first [done | by apply Hkeep].
  - by apply Hkeep.
  - by apply Hkeep.
Qed.

Lemma drained_step (s : session) (e : event) :
  drained s = true -> drained (step s e) = true.
Proof.
  unfold drained. intros H.
  destruct (shutdown s) as [[| |]|] eqn:Hs; try done.
  by rewrite (shutdown_step s e Drained Hs).
Qed.

Lemma idle_step (s : session) (e : event) :
  is_subscribe e = false -> idle s -> idle (step s e).
Proof.
  unfold idle, drained. intros He (Hcl & Hmon & Hdr).
  assert (Hpop : population (viewers s) = 0).
  { unfold population. rewrite Hcl. apply size_empty. }
  split; [|split].
  - destruct e as [|ch|ch|fs|fs| | | |]; cbn [step]; try done.
    + cbn. rewrite Hcl. apply empty_difference_L.
    + unfold receive. rewrite Hcl.
      rewrite decide_False by apply not_elem_of_empty. done.
    + by destruct (watch s).
    + destruct (watch s) as [| |paths m|]; try done.
      unfold tick. destruct (Detector.poll fs m) as [m' c]. by destruct c.
    + destruct (watch s); try done. by destruct (ctx_done s).
    + cbv zeta.
      by destruct (mon s), (sample (population (viewers s)) (ctx_done s) _).
  - rewrite mon_step. destruct e; try done. rewrite Hpop.
    destruct Hmon as [->| ->]; cbn; [|by right].
    destruct (ctx_done s); auto.
  - destruct e as [|ch|ch|fs|fs| | | |]; cbn [step]; try done.
    + by destruct (receive ch (viewers s)).
    + by destruct (watch s).
    + destruct (watch s) as [| |paths m|]; try done.
      unfold tick. destruct (Detector.poll fs m) as [m' c]. by destruct c.
    + destruct (watch s); try done. by destruct (ctx_done s).
    + cbv zeta. rewrite Hpop.
      destruct Hmon as [->| ->]; cbn; [|done]. by destruct (ctx_done s).
    + unfold trigger. cbn. by destruct (shutdown s) as [[| |]|].
    + unfold trigger. cbn. by destruct (shutdown s) as [[| |]|].
Qed.

Lemma idle_exec (tr : list event) (s : session) :
  Forall (fun e => is_subscribe e = false) tr -> idle s -> idle (exec tr s).
Proof.
  revert s. induction tr as [|e tr IH]; intros s Htr Hs; [done|].
  apply Forall_cons in Htr as [He Htr]. cbn. apply IH; [done|].
  by apply idle_step.
Qed.

Lemma drained_fired_step (s : session) (e : event) :
  (drained s = true -> mon s = Fired) ->
  drained (step s e) = true -> mon (step s e) = Fired.
Proof.
  intros Hinv Hd. destruct (drained s) eqn:Hds.
  - rewrite mon_step, (Hinv eq_refl). by destruct e.
  - assert (Hother : forall c s', shutdown s' = shutdown s -> c <> Drained ->
                                  drained (trigger c s') = false).
    { intros c s' Hs' Hc. unfold drained, trigger in *. cbn. rewrite Hs'.
      destruct (shutdown s) as [[| |]|]; try done. by destruct c. }
    unfold drained in Hds.
    destruct e as [|ch|ch|fs|fs| | | |]; cbn [step] in *;
      unfold drained in Hd.
    + cbn in Hd. by rewrite Hd in Hds.
    + cbn in Hd. by rewrite Hd in Hds.
    + destruct (receive ch (viewers s)); cbn in Hd; by rewrite Hd in Hds.
    + destruct (watch s); cbn in Hd; by rewrite Hd in Hds.
    + destruct (watch s) as [| |paths m|]; try (by rewrite Hd in Hds).
      unfold tick in Hd. destruct (Detector.poll fs m) as [m' c'].
      destruct c'; cbn in Hd; by rewrite Hd in Hds.
    + destruct (watch s); try (by rewrite Hd in Hds).
      destruct (ctx_done s); cbn in Hd; by rewrite Hd in Hds.
    + cbv zeta in *.
      destruct (mon s),
        (sample (population (viewers s)) (ctx_done s) _) eqn:Hsm;
        first [done | cbn in Hd; by rewrite Hd in Hds].
    + fold (drained (trigger Interrupt s)) in Hd.
      by rewrite Hother in Hd.
    + fold (drained (trigger Cancelled (cancel s))) in Hd.
      by rewrite Hother in Hd.
Qed.

Lemma drained_fired_exec (tr : list event) (s : session) :
  (drained s = true -> mon s = Fired) ->
  drained (exec tr s) = true -> mon (exec tr s) = Fired.
Proof.
  revert s. induction tr as [|e tr IH]; intros s Hinv; [done|].
  cbn. apply IH. by apply drained_fired_step.
Qed.

(** C2, as amended.  The sampling goroutine has no confirming second
    sample: [close(disconnectCh)] runs exactly when some sample has read at
    least one viewer and a later sample reads zero, the context not having
    been found cancelled at a sample in between (nor before the first).
    One sample that reads zero after the goroutine has seen a viewer fires
    the trigger; nothing that happens afterwards, a new subscription
    included, takes it back; and whatever happens between two samples,
    a disconnect followed by a new subscription included, is not seen. *)
Theorem drain_fires_on_first_zero_sample (c : bytes) (path : string)
    (args : list string) (tr : list event) :
  (mon (exec tr (start c path args)) = Fired <->
   exists pre n d mid d' post,
     observations tr (start c path args)
     = pre ++ (S n, d) :: mid ++ (0, d') :: post /\
     Forall (fun o => o = (0, false)) pre /\
     Forall (fun o => 0 < fst o /\ snd o = false) mid) /\
  (drained (exec tr (start c path args)) = true ->
   mon (exec tr (start c path args)) = Fired) /\
  (forall s, mon s = Watching -> population (viewers s) = 0 ->
             mon (step s Sample) = Fired /\
             (shutdown s = None -> drained (step s Sample) = true)) /\
  (forall s e, mon s = Fired -> mon (step s e) = Fired) /\
  (forall s e, drained s = true -> drained (step s e) = true) /\
  (forall s e, e <> Sample -> mon (step s e) = mon s).
Proof.
  split; [|split; [|split; [|split; [|split]]]].
  - rewrite mon_exec. apply run_waiting.
  - by apply drained_fired_exec.
  - intros s Hm Hpop. split.
    + rewrite mon_step, Hm, Hpop. reflexivity.
    + intros Hs. cbn [step]. cbv zeta. rewrite Hm, Hpop. cbn.
      unfold drained, trigger. cbn. by rewrite Hs.
  - intros s e Hm. rewrite mon_step, Hm. by destruct e.
  - apply drained_step.
  - intros s e He. rewrite mon_step. by destruct e.
Qed.

(** A viewer connects and is sampled, leaves, and the next sample fires. *)
Lemma drain_fires_on_first_zero_sample_witness :
  mon (exec [Subscribe; Sample; Disconnect 0; Sample] Demo.two_files)
  = Fired.
Proof.
  apply (proj2 (proj1 (drain_fires_on_first_zero_sample
                         (Combine.join_sources [Demo.doc_a; Demo.doc_b])
                         "a.md" ["a.md"; "b.md"]
                         [Subscribe; Sample; Disconnect 0; Sample]))).
  exists [], 0, false, [], false, [].
  split; [vm_compute; reflexivity|]. split; constructor.
Defined.

(** C2, as stated, fails: the trigger fires in an execution whose samples
    read zero viewers only once; and a viewer that subscribes right after
    that sample finds the trigger fired at the next sample all the same. *)
Lemma drain_confirmation_counterexample :
  ~ (forall tr,
        mon (exec tr Demo.two_files) = Fired ->
        two_zeros_in_a_row (map fst (observations tr Demo.two_files))
        = true) /\
  drained (exec [Subscribe; Sample; Disconnect 0; Sample; Subscribe; Sample]
             Demo.two_files) = true /\
  population (viewers (exec [Subscribe; Sample; Disconnect 0; Sample;
                             Subscribe; Sample] Demo.two_files)) = 1.
Proof.
  split; [|split; vm_compute; reflexivity].
  intros H. specialize (H [Subscribe; Sample; Disconnect 0; Sample]).
  vm_compute in H. specialize (H eq_refl). discriminate H.
Qed.

(** C3.  As long as no viewer subscribes, the registry stays empty, the
    sampling goroutine stays in its first loop (or leaves through the
    cancelled context), and the [select] of [run] is never taken through
    [disconnectCh], whatever else happens and however many samples are
    taken. *)
Theorem never_drained_before_first_viewer (c : bytes) (path : string)
    (args : list string) (tr : list event) :
  Forall (fun e => is_subscribe e = false) tr ->
  mon (exec tr (start c path args)) <> Fired /\
  drained (exec tr (start c path args)) = false /\
  population (viewers (exec tr (start c path args))) = 0.
Proof.
  intros Htr.
  assert (Hidle : idle (exec tr (start c path args))).
  { apply idle_exec; [done|]. unfold idle. cbn. auto. }
  destruct Hidle as (Hcl & Hmon & Hdr).
  split; [|split; [done|]].
  - destruct Hmon as [->| ->]; done.
  - unfold population. rewrite Hcl. apply size_empty.
Qed.

(** Ten samples, five seconds, with a file change, a signal-free wait and
    no viewer: the session is still waiting for its first viewer. *)
Lemma never_drained_before_first_viewer_witness :
  mon (exec [Sample; Sample; WatchStart (Demo.dir (Some 100%Z) (Some 90%Z));
             Sample; Tick (Demo.dir (Some 120%Z) (Some 90%Z)); Sample;
             Sample; Sample; Sample; Sample; Sample; Sample]
         Demo.two_files) <> Fired.
Proof.
  apply (never_drained_before_first_viewer
           (Combine.join_sources [Demo.doc_a; Demo.doc_b])
           "a.md" ["a.md"; "b.md"]).
  repeat constructor.
Defined.

End LifecycleClaims.


(** ** Startup *)

Module StartupClaims.

Import Broadcaster Session Startup.

Lemma append_assoc (a b c : string) : (a +:+ b) +:+ c = a +:+ (b +:+ c).
Proof.
  induction a as [|x a IH]; [done|].
  change (String x ((a +:+ b) +:+ c) = String x (a +:+ (b +:+ c))).
  by rewrite IH.
Qed.

(** The loop of [run] stops at the first argument that cannot be read. *)
Lemma read_args_unreadable (fs : fsview) (args : list string) (acc : bytes)
    (arg e : string) :
  arg ∈ args -> fs_read fs arg = Err e ->
  exists arg' e',
    arg' ∈ args /\ fs_read fs arg' = Err e' /\
    Combine.read_args fs args acc
    = Err ("reading " +:+ arg' +:+ ": " +:+ e').
Proof.
  revert acc. induction args as [|a rest IH]; intros acc Hin He.
  - by apply not_elem_of_nil in Hin.
  - cbn [Combine.read_args]. destruct (fs_read fs a) as [data|ea] eqn:Ha.
    + apply elem_of_cons in Hin as [->|Hin]; [congruence|].
      destruct (IH (Combine.append_source acc data) Hin He)
        as (arg' & e' & Hin' & He' & Hr).
      exists arg', e'. split; [by apply list_elem_of_further|done].
    + exists a, ea. split; [by apply list_elem_of_here|done].
Qed.

(** C8, as amended.  When no argument is [-h] or [--help] and some named
    file cannot be read, [run] returns the wrapped error of the first such
    file before [net.Listen]; [main] prints it and exits with status 1:
    the whole output is that one line, and no part of the server was
    started. *)
Theorem unreadable_file_is_fatal (inv : invocation) (arg e : string) :
  existsb is_help (inv_args inv) = false ->
  arg ∈ inv_args inv ->
  fs_read (inv_fs inv) arg = Err e ->
  exists arg' e',
    arg' ∈ inv_args inv /\ fs_read (inv_fs inv) arg' = Err e' /\
    main inv
    = ([Stderr ("mdview: reading " +:+ arg' +:+ ": " +:+ e' +:+ nl)],
       Exit 1) /\
    existsb starts_server (fst (main inv)) = false.
Proof.
  intros Hhelp Hin He.
  destruct (read_args_unreadable (inv_fs inv) (inv_args inv) [] arg e Hin He)
    as (arg' & e' & Hin' & He' & Hr).
  exists arg', e'. split; [done|]. split; [done|].
  assert (Hmain : main inv
                  = ([Stderr ("mdview: reading " +:+ arg' +:+ ": " +:+ e'
                              +:+ nl)], Exit 1)).
  { unfold main, run, load. rewrite Hhelp.
    destruct (inv_args inv) as [|first rest] eqn:Hargs.
    - by apply not_elem_of_nil in Hin.
    - rewrite Hr. cbn. rewrite !append_assoc. reflexivity. }

  split; [done|]. by rewrite Hmain.
Qed.

(** [mdview a.md missing.md]: the error names [missing.md]. *)
Lemma unreadable_file_is_fatal_witness :
  exists arg' e',
    arg' ∈ Startup.inv_args Demo.missing_second /\
    fs_read (Startup.inv_fs Demo.missing_second) arg' = Err e' /\
    main Demo.missing_second
    = ([Stderr ("mdview: reading " +:+ arg' +:+ ": " +:+ e' +:+ nl)],
       Exit 1) /\
    existsb starts_server (fst (main Demo.missing_second)) = false.
Proof.
  apply (unreadable_file_is_fatal Demo.missing_second "missing.md"
           "open missing.md: no such file or directory").
  - reflexivity.
  - apply list_elem_of_further, list_elem_of_here.
  - reflexivity.
Defined.

(** C8, as stated, fails: with a help flag among the arguments the usage is
    printed and the status is 0, although a named file cannot be read. *)
Lemma help_flag_counterexample :
  ~ (forall inv arg e,
        arg ∈ inv_args inv -> fs_read (inv_fs inv) arg = Err e ->
        exists code, snd (main inv) = Exit code /\ code <> 0%Z).
Proof.
  intros H.
  destruct (H Demo.help_after_missing "missing.md"
              "open missing.md: no such file or directory")
    as (code & Hcode & Hnz).
  - apply list_elem_of_here.
  - reflexivity.
  - vm_compute in Hcode. injection Hcode as <-. by apply Hnz.
Qed.

Lemma quiet_step (c0 : bytes) (s : session) (e : event) :
  quiet c0 s -> quiet c0 (step s e).
Proof.
  unfold quiet. intros (Hw & Hr & Hc & Hp).
  destruct e as [|ch|ch|fs|fs| | | |]; cbn [step].
  - cbn. repeat split; try done. intros ch. unfold pending. cbn.
    destruct (decide (ch = fresh (dom (chans (viewers s))))) as [->|Hne].
    + by rewrite lookup_insert_eq.
    + rewrite lookup_insert_ne by done. apply Hp.
  - cbn. repeat split; try done.
  - assert (Hnone : receive ch (viewers s) = None).
    { unfold receive. destruct (decide _); [|done].
      specialize (Hp ch). unfold pending in Hp.
      destruct (chans (viewers s) !! ch) as [c|]; [|done]. cbn.
      unfold try_recv. by rewrite Hp. }
    by rewrite Hnone.
  - by rewrite Hw.
  - by rewrite Hw.
  - by rewrite Hw.
  - cbv zeta.
    by destruct (mon s),
         (Lifecycle.sample (population (viewers s)) (ctx_done s) _).
  - done.
  - done.
Qed.

Lemma quiet_exec (c0 : bytes) (tr : list event) (s : session) :
  quiet c0 s -> quiet c0 (exec tr s).
Proof.
  revert s. induction tr as [|e tr IH]; intros s Hq; [done|].
  cbn. apply IH. by apply quiet_step.
Qed.

(** C9.  A session that was started without arguments reads its document
    from standard input and leaves [filePath] empty: [run] does not start
    [watchFiles], and in every execution of the session the watcher stays
    unstarted, the snapshot stays the one read at startup, no channel ever
    holds a signal and no reload event is written to any stream. *)
Theorem stdin_session_never_reloads (inv : invocation) (log : list effect)
    (s0 : session) (tr : list event) :
  inv_args inv = [] ->
  run inv = (log, Serving s0) ->
  inv_stdin inv = Ok (content s0) /\
  filePath s0 = EmptyString /\
  (forall paths, GoWatch paths ∉ log) /\
  watch (exec tr s0) = NotStarted /\
  reloads (exec tr s0) = [] /\
  content (exec tr s0) = content s0 /\
  (forall ch, pending (viewers (exec tr s0)) ch = 0).
Proof.
  intros Hargs Hrun. unfold run, load in Hrun. rewrite Hargs in Hrun.
  cbn [existsb] in Hrun.
  destruct (inv_stdin_tty inv); [done|].
  destruct (inv_stdin inv) as [data|e] eqn:Hin; [|done].
  unfold serve in Hrun. destruct (inv_listen inv) as [port|e]; [|done].
  rewrite decide_True in Hrun by done.
  injection Hrun as <- <-. cbn [content filePath start].
  split; [done|]. split; [done|].
  split.
  { intros paths Hmem. cbn in Hmem.
    repeat (apply elem_of_cons in Hmem as [Hmem|Hmem]; [done|]).
    destruct (inv_browser inv); cbn in Hmem;
      repeat (apply elem_of_cons in Hmem as [Hmem|Hmem]; [done|]);
      by apply not_elem_of_nil in Hmem. }
  assert (Hq : quiet data (exec tr (start data EmptyString []))).
  { apply quiet_exec. unfold quiet, start. cbn.
    rewrite decide_True by done. repeat split; done. }
  destruct Hq as (Hw & Hr & Hc & Hp). repeat split; done.
Qed.

(** [cat a.md | mdview]: a viewer connects while files of the directory
    change; nothing is ever delivered. *)
Lemma stdin_session_never_reloads_witness :
  reloads (exec [Subscribe; WatchStart (Demo.dir (Some 100%Z) (Some 90%Z));
                 Tick (Demo.dir (Some 120%Z) (Some 90%Z)); Deliver 0;
                 Sample]
             (start Demo.doc_a EmptyString [])) = [].
Proof.
  refine (proj1 (proj2 (proj2 (proj2 (proj2
            (stdin_session_never_reloads Demo.piped
               (fst (run Demo.piped))
               (start Demo.doc_a EmptyString []) _ _ _)))))).
  - reflexivity.
  - vm_compute. reflexivity.
Defined.

End StartupClaims.


(** ** The document store under the mutex *)

Module StoreFacts.

Import Store.

Lemma count_insert (f : thread -> bool) (ts : list thread) (i : nat)
    (t t' : thread) :
  ts !! i = Some t ->
  count f (<[i := t']> ts) + Nat.b2n (f t) = count f ts + Nat.b2n (f t').
Proof.
  revert i. induction ts as [|x ts IH]; intros i Hi; [done|].
  destruct i as [|i]; cbn in Hi.
  - injection Hi as ->. cbn [count]. cbn.
    destruct (f t), (f t'); cbn; lia.
  - specialize (IH i Hi).
    change (<[S i := t']> (x :: ts)) with (x :: <[i := t']> ts).
    cbn [count]. lia.
Qed.

Lemma count_zero (f : thread -> bool) (ts : list thread) (j : nat)
    (t : thread) :
  count f ts = 0 -> ts !! j = Some t -> f t = false.
Proof.
  revert j. induction ts as [|x ts IH]; intros j Hc Hj; [done|].
  cbn in Hc. destruct j as [|j]; cbn in Hj.
  - injection Hj as ->. destruct (f t); [cbn in Hc; lia|done].
  - apply (IH j); [lia|done].
Qed.

(** At most one thread satisfies [f]: it is the one we know. *)
Lemma count_one (f : thread -> bool) (ts : list thread) (i j : nat)
    (t t' : thread) :
  count f ts <= 1 -> ts !! i = Some t -> f t = true ->
  j <> i -> ts !! j = Some t' -> f t' = false.
Proof.
  revert i j. induction ts as [|x ts IH]; intros i j Hc Hi Hf Hne Hj; [done|].
  cbn [count] in Hc. destruct i as [|i], j as [|j]; cbn in Hi, Hj; try done.
  - injection Hi as ->. rewrite Hf in Hc. cbn in Hc.
    apply (count_zero f ts j); [lia|done].
  - injection Hj as ->. destruct (f t') eqn:Ht'; [|done]. exfalso.
    cbn in Hc. assert (Hz : count f ts = 0) by lia.
    rewrite (count_zero f ts i t Hz Hi) in Hf. done.
  - apply (IH i j); try done; [lia|congruence].
Qed.

Lemma installed_put (b0 : bytes) (ts : list thread) (i : nat) (t t' : thread)
    (sl : slice) (d : bytes) :
  ts !! i = Some t -> keeps t t' ->
  installed b0 ts sl d -> installed b0 (<[i := t']> ts) sl d.
Proof.
  intros Hi [_ Hk] [H|(j & pc & Hj & Hb)]; [by left|]. right.
  destruct (decide (j = i)) as [->|Hne].
  - rewrite Hi in Hj. injection Hj as ->.
    destruct (Hk Hb) as (pc' & -> & Hb').
    exists i, pc'. split; [|done].
    apply list_lookup_insert_eq. by eapply lookup_lt_Some.
  - exists j, pc. by rewrite list_lookup_insert_ne.
Qed.

Lemma thread_ok_mono (b0 : bytes) (ts ts' : list thread) (c : slice)
    (t : thread) :
  (forall sl d, installed b0 ts sl d -> installed b0 ts' sl d) ->
  thread_ok b0 ts c t -> thread_ok b0 ts' c t.
Proof.
  intros Hmono.
  destruct t as [[] src out|[] d sl]; cbn; try done;
    intros (x & Hx); exists x; by apply Hmono.
Qed.

(** What a thread outside the critical sections knows does not mention
    [content]. *)
Lemma thread_ok_content (b0 : bytes) (ts : list thread) (c c' : slice)
    (t : thread) :
  holds_read t = false -> holds_write t = false ->
  thread_ok b0 ts c t -> thread_ok b0 ts c' t.
Proof. by destruct t as [[] src out|[] d sl]. Qed.

(** The bytes of an assigned slice value are the bytes assigned. *)
Lemma installed_bytes (b0 : bytes) (jobs : list job) (s : state) (sl : slice)
    (d : bytes) :
  invariant b0 jobs s -> installed b0 (threads s) sl d ->
  bytes_of (heap s) sl = d.
Proof.
  intros Hinv [[-> ->]|(j & pc & Hj & Hb)]; unfold bytes_of.
  - cbn. rewrite (inv_first _ _ _ Hinv). cbn. apply firstn_all.
  - destruct (inv_built _ _ _ Hinv j _ Hj) as (Hp & Hl & _).
    { by destruct pc. }
    rewrite Hp, Hl. cbn. apply firstn_all.
Qed.

Lemma count_pos (f : thread -> bool) (ts : list thread) (i : nat)
    (t : thread) :
  ts !! i = Some t -> f t = true -> 1 <= count f ts.
Proof.
  intros Hi Hf. destruct (count f ts) eqn:Hc; [|lia].
  rewrite (count_zero f ts i t Hc Hi) in Hf. done.
Qed.

(** Mutual exclusion, read off the invariant. *)
Lemma writer_holds (b0 : bytes) (jobs : list job) (s : state) (i : nat)
    (t : thread) :
  invariant b0 jobs s -> threads s !! i = Some t -> holds_write t = true ->
  writer (mu s) = true /\ readers (mu s) = 0.
Proof.
  intros Hinv Hi Hh.
  pose proof (count_pos holds_write _ i t Hi Hh) as Hc.
  rewrite <- (inv_writer _ _ _ Hinv) in Hc.
  destruct (writer (mu s)) eqn:Hw; [|cbn in Hc; lia].
  split; [done|]. by apply (inv_exclusion _ _ _ Hinv).
Qed.

Lemma reader_holds (b0 : bytes) (jobs : list job) (s : state) (i : nat)
    (t : thread) :
  invariant b0 jobs s -> threads s !! i = Some t -> holds_read t = true ->
  writer (mu s) = false /\ 1 <= readers (mu s).
Proof.
  intros Hinv Hi Hh.
  pose proof (count_pos holds_read _ i t Hi Hh) as Hc.
  rewrite <- (inv_readers _ _ _ Hinv) in Hc.
  split; [|done]. destruct (writer (mu s)) eqn:Hw; [|done].
  pose proof (inv_exclusion _ _ _ Hinv Hw). lia.
Qed.

(** One thread moves: what has to be checked for the invariant to hold in
    the new state. *)
Lemma invariant_put (b0 : bytes) (jobs : list job) (s : state) (i : nat)
    (t t' : thread) (m : rwmutex) (c : slice) (h : gmap nat bytes) :
  invariant b0 jobs s ->
  threads s !! i = Some t ->
  keeps t t' ->
  readers m + Nat.b2n (holds_read t)
  = readers (mu s) + Nat.b2n (holds_read t') ->
  Nat.b2n (writer m) + Nat.b2n (holds_write t)
  = Nat.b2n (writer (mu s)) + Nat.b2n (holds_write t') ->
  (writer m = true -> readers m = 0) ->
  (writer m = false ->
   exists d, installed b0 (<[i := t']> (threads s)) c d) ->
  (forall p d, heap s !! p = Some d -> h !! p = Some d) ->
  built h t' ->
  thread_ok b0 (<[i := t']> (threads s)) c t' ->
  (c = content s \/ holds_write t = true) ->
  invariant b0 jobs
    {| mu := m; content := c; heap := h;
       threads := <[i := t']> (threads s) |}.
Proof.
  intros Hinv Hi Hk Hr Hw Hex Hc Hh Hb Hok Hcont.
  pose proof (count_insert holds_read _ i t t' Hi) as Hcr.
  pose proof (count_insert holds_write _ i t t' Hi) as Hcw.
  pose proof (inv_readers _ _ _ Hinv) as Hir.
  pose proof (inv_writer _ _ _ Hinv) as Hiw.
  assert (Hlen : i < List.length (threads s)) by by eapply lookup_lt_Some.
  constructor; cbn [mu content heap threads].
  - rewrite list_fmap_insert. destruct Hk as [-> _].
    rewrite list_insert_id; [apply (inv_jobs _ _ _ Hinv)|].
    by rewrite list_lookup_fmap, Hi.
  - lia.
  - lia.
  - done.
  - done.
  - apply Hh, (inv_first _ _ _ Hinv).
  - intros j tj Hj. destruct (decide (j = i)) as [->|Hne].
    + rewrite list_lookup_insert_eq in Hj by done. by injection Hj as <-.
    + rewrite list_lookup_insert_ne in Hj by done.
      pose proof (inv_built _ _ _ Hinv j tj Hj) as Hbj.
      destruct tj as [|pc d sl]; [done|]. cbn in *. intros Hpc.
      destruct (Hbj Hpc) as (Hp & Hl). split; [by apply Hh|done].
  - intros j tj Hj. destruct (decide (j = i)) as [->|Hne].
    + rewrite list_lookup_insert_eq in Hj by done. by injection Hj as <-.
    + rewrite list_lookup_insert_ne in Hj by done.
      pose proof (inv_threads _ _ _ Hinv j tj Hj) as Hokj.
      apply (thread_ok_mono b0 (threads s)).
      { intros sl d. by apply (installed_put b0 _ i t t'). }
      destruct Hcont as [->|Hhold]; [done|].
      destruct (writer_holds _ _ _ _ _ Hinv Hi Hhold) as [Hwt Hrd].
      apply (thread_ok_content b0 _ (content s)); [| |done].
      * apply (count_zero holds_read (threads s) j); [lia|done].
      * apply (count_one holds_write (threads s) i j t); try done.
        rewrite <- Hiw. destruct (writer (mu s)); cbn; lia.
Qed.

Lemma installed_keep (b0 : bytes) (jobs : list job) (s : state) (i : nat)
    (t t' : thread) :
  invariant b0 jobs s -> threads s !! i = Some t -> keeps t t' ->
  writer (mu s) = false ->
  exists d, installed b0 (<[i := t']> (threads s)) (content s) d.
Proof.
  intros Hinv Hi Hk Hw. destruct (inv_content _ _ _ Hinv Hw) as [d Hd].
  exists d. by apply (installed_put b0 _ i t t').
Qed.

Lemma invariant_step_reader (b0 : bytes) (jobs : list job) (s : state)
    (i : nat) (pc : rpc) (src : slice) (out : bytes) :
  invariant b0 jobs s -> threads s !! i = Some (Reader pc src out) ->
  invariant b0 jobs (step_reader i pc src out s).
Proof.
  intros Hinv Hi.
  pose proof (inv_threads _ _ _ Hinv i _ Hi) as Hok.
  assert (Hkeep : forall t', job_of t' = Render ->
                             keeps (Reader pc src out) t') by done.
  destruct pc; cbn [step_reader].
  - destruct (writer (mu s)) eqn:Hw; [done|].
    refine (invariant_put b0 jobs s i _ (Reader RLocked src out)
              {| writer := false; readers := S (readers (mu s)) |}
              (content s) (heap s) Hinv Hi _ _ _ _ _ _ _ _ _);
      cbn; try done; try lia; auto.
    + by rewrite Hw.
    + intros _. by apply (installed_keep b0 jobs s i (Reader RStart src out)).
  - destruct (reader_holds _ _ _ _ _ Hinv Hi eq_refl) as [Hw Hr].
    refine (invariant_put b0 jobs s i _
              (Reader RPtr (set_ptr (ptr (content s)) src) out)
              (mu s) (content s) (heap s) Hinv Hi _ _ _ _ _ _ _ _ _);
      cbn; try done; auto.
    + apply (inv_exclusion _ _ _ Hinv).
    + intros _. by apply (installed_keep b0 jobs s i (Reader RLocked src out)).
  - destruct (reader_holds _ _ _ _ _ Hinv Hi eq_refl) as [Hw Hr].
    refine (invariant_put b0 jobs s i _
              (Reader RLen (set_len (len (content s)) src) out)
              (mu s) (content s) (heap s) Hinv Hi _ _ _ _ _ _ _ _ _);
      cbn; try done; auto.
    + apply (inv_exclusion _ _ _ Hinv).
    + intros _. by apply (installed_keep b0 jobs s i (Reader RPtr src out)).
  - destruct (reader_holds _ _ _ _ _ Hinv Hi eq_refl) as [Hw Hr].
    refine (invariant_put b0 jobs s i _
              (Reader RCap (set_cap (cap (content s)) src) out)
              (mu s) (content s) (heap s) Hinv Hi _ _ _ _ _ _ _ _ _);
      cbn; try done; auto.
    + apply (inv_exclusion _ _ _ Hinv).
    + intros _. by apply (installed_keep b0 jobs s i (Reader RLen src out)).
    + cbn in Hok. destruct Hok as [Hp Hl]. unfold set_cap.
      destruct src, (content s). cbn in *. by subst.
  - destruct (reader_holds _ _ _ _ _ Hinv Hi eq_refl) as [Hw Hr].
    refine (invariant_put b0 jobs s i _ (Reader RUnlocked src out)
              {| writer := writer (mu s);
                 readers := pred (readers (mu s)) |}
              (content s) (heap s) Hinv Hi _ _ _ _ _ _ _ _ _);
      cbn; try done; try lia; auto.
    + by rewrite Hw.
    + intros _. by apply (installed_keep b0 jobs s i (Reader RCap src out)).
    + cbn in Hok. subst src.
      by apply (installed_keep b0 jobs s i (Reader RCap (content s) out)).
  - cbn in Hok. destruct Hok as [d Hd].
    refine (invariant_put b0 jobs s i _
              (Reader RDone src (bytes_of (heap s) src))
              (mu s) (content s) (heap s) Hinv Hi _ _ _ _ _ _ _ _ _);
      cbn; try done; auto.
    + apply (inv_exclusion _ _ _ Hinv).
    + by apply (installed_keep b0 jobs s i (Reader RUnlocked src out)).
    + exists src. rewrite (installed_bytes b0 jobs s src d Hinv Hd).
      by apply (installed_put b0 _ i (Reader RUnlocked src out)).
  - done.
Qed.

Lemma invariant_step_writer (b0 : bytes) (jobs : list job) (s : state)
    (i : nat) (pc : wpc) (d : bytes) (sl : slice) :
  invariant b0 jobs s -> threads s !! i = Some (Writer pc d sl) ->
  invariant b0 jobs (step_writer i pc d sl s).
Proof.
  intros Hinv Hi.
  pose proof (inv_threads _ _ _ Hinv i _ Hi) as Hok.
  pose proof (inv_built _ _ _ Hinv i _ Hi) as Hb.
  assert (Hlen : i < List.length (threads s)) by by eapply lookup_lt_Some.
  destruct pc; cbn [step_writer].
  - refine (invariant_put b0 jobs s i _
              (Writer WBuilt d
                 {| ptr := fresh (dom (heap s)); len := List.length d;
                    cap := List.length d |})
              (mu s) (content s)
              (<[fresh (dom (heap s)) := d]> (heap s))
              Hinv Hi _ _ _ _ _ _ _ _ _);
      cbn; try done; auto.
    + apply (inv_exclusion _ _ _ Hinv).
    + by apply (installed_keep b0 jobs s i (Writer WStart d sl)).
    + intros p d' Hp. rewrite lookup_insert_ne; [done|].
      intros <-. apply (is_fresh (dom (heap s))).
      apply elem_of_dom. by rewrite Hp.
    + intros _. by rewrite lookup_insert_eq.
  - destruct (writer (mu s)) eqn:Hw; [done|].
    destruct (readers (mu s) =? 0)%nat eqn:Hr; [|done].
    apply Nat.eqb_eq in Hr. cbn [orb negb].
    refine (invariant_put b0 jobs s i _ (Writer WLocked d sl)
              {| writer := true; readers := 0 |}
              (content s) (heap s) Hinv Hi _ _ _ _ _ _ _ _ _);
      cbn; try done; try lia; auto.
    + by rewrite Hw.
    + by apply (installed_keep b0 jobs s i (Writer WBuilt d sl)).
  - destruct (writer_holds _ _ _ _ _ Hinv Hi eq_refl) as [Hw Hr].
    refine (invariant_put b0 jobs s i _ (Writer WPtr d sl)
              (mu s) (set_ptr (ptr sl) (content s)) (heap s)
              Hinv Hi _ _ _ _ _ _ _ _ _);
      cbn; try done; auto.
    + split; [done|]. intros _. by exists WPtr.
    + by rewrite Hw.
  - destruct (writer_holds _ _ _ _ _ Hinv Hi eq_refl) as [Hw Hr].
    refine (invariant_put b0 jobs s i _ (Writer WLen d sl)
              (mu s) (set_len (len sl) (content s)) (heap s)
              Hinv Hi _ _ _ _ _ _ _ _ _);
      cbn; try done; auto.
    + split; [done|]. intros _. by exists WLen.
    + by rewrite Hw.
  - destruct (writer_holds _ _ _ _ _ Hinv Hi eq_refl) as [Hw Hr].
    refine (invariant_put b0 jobs s i _ (Writer WCap d sl)
              (mu s) (set_cap (cap sl) (content s)) (heap s)
              Hinv Hi _ _ _ _ _ _ _ _ _);
      cbn; try done; auto.
    + split; [done|]. intros _. by exists WCap.
    + by rewrite Hw.
    + cbn in Hok. destruct Hok as [Hp Hl]. unfold set_cap.
      destruct sl, (content s). cbn in *. by subst.
  - destruct (writer_holds _ _ _ _ _ Hinv Hi eq_refl) as [Hw Hr].
    refine (invariant_put b0 jobs s i _ (Writer WDone d sl)
              {| writer := false; readers := readers (mu s) |}
              (content s) (heap s) Hinv Hi _ _ _ _ _ _ _ _ _);
      cbn; try done; auto.
    + split; [done|]. intros _. by exists WDone.
    + by rewrite Hw.
    + intros _. cbn in Hok. exists d. right. exists i, WDone.
      rewrite list_lookup_insert_eq by done. by rewrite Hok.
  - done.
Qed.

Lemma invariant_step (b0 : bytes) (jobs : list job) (s : state) (i : nat) :
  invariant b0 jobs s -> invariant b0 jobs (step s i).
Proof.
  intros Hinv. unfold step.
  destruct (threads s !! i) as [[pc src out|pc d sl]|] eqn:Hi; [| |done].
  - by apply invariant_step_reader.
  - by apply invariant_step_writer.
Qed.

Lemma invariant_exec (b0 : bytes) (jobs : list job) (schedule : list nat)
    (s : state) :
  invariant b0 jobs s -> invariant b0 jobs (exec schedule s).
Proof.
  revert s. induction schedule as [|i rest IH]; intros s Hinv; [done|].
  cbn. apply IH. by apply invariant_step.
Qed.

Lemma count_spawn (f : thread -> bool) (jobs : list job) :
  f (Reader RStart nil_slice []) = false ->
  (forall d, f (Writer WStart d nil_slice) = false) ->
  count f (spawn <$> jobs) = 0.
Proof.
  intros Hr Hw. induction jobs as [|j jobs IH]; [done|].
  cbn. rewrite IH. destruct j; cbn; by rewrite ?Hr, ?Hw.
Qed.

Lemma invariant_init (b0 : bytes) (jobs : list job) :
  invariant b0 jobs (init b0 jobs).
Proof.
  constructor; cbn.
  - rewrite <- list_fmap_compose. rewrite <- (list_fmap_id jobs) at 2.
    apply list_fmap_ext. intros _ j _. by destruct j.
  - by rewrite count_spawn.
  - by rewrite count_spawn.
  - done.
  - intros _. exists b0. by left.
  - done.
  - intros j t Hj. rewrite list_lookup_fmap in Hj.
    destruct (jobs !! j) as [[|d]|]; cbn in Hj; try done;
      injection Hj as <-; done.
  - intros j t Hj. rewrite list_lookup_fmap in Hj.
    destruct (jobs !! j) as [[|d]|]; cbn in Hj; try done;
      injection Hj as <-; done.
Qed.

(** C7.  Goroutines that render and goroutines that install a refreshed
    snapshot, as many as one likes and interleaved in any way, one memory
    access at a time: the bytes a finished [renderMarkdown] has read are,
    whole, the snapshot of startup or the [combined] of a refresh that had
    taken the lock, never a slice value pieced together from two
    assignments. *)
Theorem reads_are_whole (b0 : bytes) (jobs : list job) (schedule : list nat)
    (i : nat) (src : slice) (out : bytes) :
  threads (exec schedule (init b0 jobs)) !! i = Some (Reader RDone src out) ->
  out = b0 \/
  exists j pc sl,
    jobs !! j = Some (Install out) /\
    threads (exec schedule (init b0 jobs)) !! j = Some (Writer pc out sl) /\
    began pc = true.
Proof.
  intros Hi.
  pose proof (invariant_exec b0 jobs schedule _ (invariant_init b0 jobs))
    as Hinv.
  pose proof (inv_threads _ _ _ Hinv i _ Hi) as Hok. cbn in Hok.
  destruct Hok as [sl [[_ ->]|(j & pc & Hj & Hb)]]; [by left|]. right.
  exists j, pc, sl. split; [|done].
  pose proof (inv_jobs _ _ _ Hinv) as Hjobs.
  rewrite <- Hjobs, list_lookup_fmap, Hj. done.
Qed.

(** A render that overlaps a refresh reads the old snapshot; a render that
    starts after it reads the new one. *)
Lemma reads_are_whole_witness :
  threads (exec [1; 0; 0; 1; 0; 0; 0; 1; 1; 1; 1; 1; 0; 2; 2; 2; 2; 2; 2]
             (init Demo.doc_a [Render; Install Demo.doc_b; Render])) !! 0
  = Some (Reader RDone {| ptr := 0; len := 3; cap := 3 |} Demo.doc_a) /\
  threads (exec [1; 0; 0; 1; 0; 0; 0; 1; 1; 1; 1; 1; 0; 2; 2; 2; 2; 2; 2]
             (init Demo.doc_a [Render; Install Demo.doc_b; Render])) !! 2
  = Some (Reader RDone {| ptr := 1; len := 3; cap := 3 |} Demo.doc_b) /\
  (Demo.doc_b = Demo.doc_a \/
   exists j pc sl,
     [Render; Install Demo.doc_b; Render] !! j
     = Some (Install Demo.doc_b) /\
     threads (exec [1; 0; 0; 1; 0; 0; 0; 1; 1; 1; 1; 1; 0; 2; 2; 2; 2; 2; 2]
                (init Demo.doc_a [Render; Install Demo.doc_b; Render]))
     !! j = Some (Writer pc Demo.doc_b sl) /\
     began pc = true).
Proof.
  split; [vm_compute; reflexivity|].
  assert (H2 : threads
                 (exec [1; 0; 0; 1; 0; 0; 0; 1; 1; 1; 1; 1; 0; 2; 2; 2; 2; 2;
                        2]
                    (init Demo.doc_a
                       [Render; Install Demo.doc_b; Render])) !! 2
               = Some (Reader RDone {| ptr := 1; len := 3; cap := 3 |}
                         Demo.doc_b)).
  { vm_compute. reflexivity. }
  split; [exact H2|].
  exact (reads_are_whole Demo.doc_a [Render; Install Demo.doc_b; Render]
           [1; 0; 0; 1; 0; 0; 0; 1; 1; 1; 1; 1; 0; 2; 2; 2; 2; 2; 2]
           2 _ _ H2).
Defined.

End StoreFacts.


(** * Further properties *)

(** ** The registry: order of iteration, subscription, coalescing *)

Module BroadcasterMore.

Import Broadcaster Order BroadcasterFacts.

Lemma lookup_notify_in_order (order : list nat) (h : gmap nat chan)
    (ch : nat) :
  NoDup order ->
  notify_in_order order h !! ch
  = if decide (ch ∈ order) then (fun c => fst (try_send c)) <$> h !! ch
    else h !! ch.
Proof.
  unfold notify_in_order. revert h.
  induction order as [|x order IH]; intros h Hnd.
  - cbn. rewrite decide_False; [done|]. apply not_elem_of_nil.
  - apply NoDup_cons in Hnd as [Hx Hnd]. cbn [fold_left].
    rewrite IH by done. unfold signal. rewrite lookup_alter.
    destruct (decide (x = ch)) as [->|Hne].
    + rewrite decide_False by done.
      rewrite decide_True; [done|]. apply list_elem_of_here.
    + destruct (decide (ch ∈ order)) as [Hin|Hnin].
      * rewrite decide_True; [done|]. by apply list_elem_of_further.
      * rewrite decide_False; [done|].
        intros [Heq|Hin]%elem_of_cons; [congruence|done].
Qed.

(** X1.  Whatever the order in which the loop of [notifyClients] meets the
    registered channels, each exactly once, the channels end up as
    [notifyClients] leaves them. *)
Theorem notify_order_irrelevant (r : registry) (order : list nat) :
  NoDup order ->
  (forall ch, ch ∈ order <-> ch ∈ clients r) ->
  notify_in_order order (chans r) = chans (notifyClients r).
Proof.
  intros Hnd Hsame. apply map_eq. intros ch. cbn [notifyClients chans].
  rewrite lookup_notify_in_order, lookup_signal_fold by done.
  destruct (decide (ch ∈ order)) as [Hin|Hnin].
  - rewrite decide_True; [done|]. by apply Hsame.
  - rewrite decide_False; [done|]. intros Hc. by apply Hnin, Hsame.
Qed.

(** Three viewers, the second one already signalled: visiting them as
    2, 0, 1 gives what [notifyClients] gives. *)
Lemma notify_order_irrelevant_witness :
  notify_in_order [2; 0; 1]
    (chans (run_ops [OpSubscribe; OpSubscribe; OpNotify; OpReceive 0;
                     OpSubscribe] empty))
  = chans (notifyClients
             (run_ops [OpSubscribe; OpSubscribe; OpNotify; OpReceive 0;
                       OpSubscribe] empty)).
Proof.
  apply (notify_order_irrelevant
           (run_ops [OpSubscribe; OpSubscribe; OpNotify; OpReceive 0;
                     OpSubscribe] empty) [2; 0; 1]).
  - apply (bool_decide_unpack _). vm_compute. exact I.
  - intros ch. change (clients _) with ({[2]} ∪ ({[1]} ∪ ({[0]} ∪ ∅)) : gset nat).
    rewrite !elem_of_cons, elem_of_nil, !elem_of_union, !elem_of_singleton,
      elem_of_empty. tauto.
Defined.

(** X2.  A second [notifyClients] right after the first changes nothing:
    the signals of two refreshes that no viewer has taken in between are
    one signal. *)
Theorem notify_twice_is_once (ops : list op) :
  notifyClients (notifyClients (run_ops ops empty))
  = notifyClients (run_ops ops empty).
Proof.
  pose proof (well_formed_run_ops ops empty well_formed_empty) as Hwf.
  set (r := run_ops ops empty) in *. unfold notifyClients at 1.
  cbn [clients chans notifyClients]. unfold notifyClients. f_equal.
  apply map_eq. intros ch. rewrite !lookup_signal_fold.
  destruct (decide (ch ∈ clients r)) as [Hin|]; [|done].
  destruct (Hwf ch Hin) as (c & Hc & Hs). rewrite Hc. cbn. f_equal.
  destruct (try_send_single_slot c Hs) as [[Hcap _] Hone].
  by rewrite try_send_full.
Qed.

(** X3.  [handleSSE] registers a channel that is new: its identity is
    neither registered nor that of any channel made before, its buffer is
    empty, the other channels are as they were, the registry has one more
    entry, and removing the channel again gives back the registry there
    was. *)
Theorem subscribe_is_fresh (ops : list op) :
  (snd (subscribe (run_ops ops empty)) ∉ clients (run_ops ops empty)) /\
  chans (run_ops ops empty) !! snd (subscribe (run_ops ops empty)) = None /\
  pending (fst (subscribe (run_ops ops empty)))
    (snd (subscribe (run_ops ops empty))) = 0 /\
  population (fst (subscribe (run_ops ops empty)))
  = S (population (run_ops ops empty)) /\
  delete (snd (subscribe (run_ops ops empty)))
    (chans (fst (subscribe (run_ops ops empty))))
  = chans (run_ops ops empty) /\
  clients (unsubscribe (snd (subscribe (run_ops ops empty)))
             (fst (subscribe (run_ops ops empty))))
  = clients (run_ops ops empty).
Proof.
  pose proof (well_formed_run_ops ops empty well_formed_empty) as Hwf.
  set (r := run_ops ops empty) in *. cbn [subscribe fst snd].
  set (ch := fresh (dom (chans r))).
  assert (Hnone : chans r !! ch = None).
  { apply not_elem_of_dom, is_fresh. }
  assert (Hout : ch ∉ clients r).
  { intros Hin. destruct (Hwf ch Hin) as (c & Hc & _). congruence. }
  split; [done|]. split; [done|]. split.
  { unfold pending. cbn. by rewrite lookup_insert_eq. }
  split.
  { unfold population. cbn. rewrite size_union.
    - by rewrite size_singleton.
    - intros x Hx%elem_of_singleton. by subst. }
  split.
  { cbn. rewrite delete_insert_eq. by apply delete_id. }
  cbn. apply set_eq. intros x.
  rewrite elem_of_difference, elem_of_union, elem_of_singleton.
  split; [intros [[?|?] ?]; done|]. intros Hx. split; [by right|].
  intros ->. done.
Qed.

(** X4.  The deferred [delete(clients, ch)] lowers the size of the
    registry by one if [ch] is registered and by nothing otherwise, removes
    no other entry, and touches no buffer; a second [delete] of the same
    channel changes nothing. *)
Theorem unsubscribe_counts (r : registry) (ch : nat) :
  population (unsubscribe ch r)
  = population r - (if decide (ch ∈ clients r) then 1 else 0) /\
  unsubscribe ch (unsubscribe ch r) = unsubscribe ch r /\
  (ch ∉ clients (unsubscribe ch r)) /\
  clients (unsubscribe ch r) ⊆ clients r /\
  chans (unsubscribe ch r) = chans r.
Proof.
  assert (Hno : ch ∉ clients r -> clients r ∖ {[ch]} = clients r).
  { intros Hout. apply set_eq. intros x.
    rewrite elem_of_difference, elem_of_singleton.
    split; [by intros [? _]|]. intros Hx. split; [done|]. by intros ->. }
  split.
  { unfold population. cbn. destruct (decide (ch ∈ clients r)) as [Hin|Hout].
    - rewrite size_difference, size_singleton; [done|].
      intros x Hx%elem_of_singleton. by subst.
    - rewrite Hno by done. lia. }
  split.
  { unfold unsubscribe. cbn. f_equal. apply set_eq. intros x.
    rewrite !elem_of_difference. tauto. }
  split.
  { cbn. rewrite elem_of_difference, elem_of_singleton. tauto. }
  split; [|done].
  intros c. cbn. rewrite elem_of_difference. tauto.
Qed.

End BroadcasterMore.


(** ** The streams of the viewers in the session *)

Module StreamMore.

Import Broadcaster Detector Session Observe BroadcasterFacts.

(** How one step moves the registry and the streams. *)
Lemma viewers_step (s : session) (e : event) :
  viewers (step s e)
  = match e with
    | Subscribe => fst (subscribe (viewers s))
    | Disconnect ch => unsubscribe ch (viewers s)
    | Deliver ch => default (viewers s) (receive ch (viewers s))
    | Tick _ =>
        if refreshing e s then notifyClients (viewers s) else viewers s
    | _ => viewers s
    end.
Proof.
  destruct e as [|ch|ch|fs|fs| | | |]; cbn [step]; try done.
  - by destruct (receive ch (viewers s)).
  - by destruct (watch s).
  - unfold refreshing. destruct (watch s) as [| |paths m|]; try done.
    unfold tick. destruct (poll fs m) as [m' c]. by destruct c.
  - destruct (watch s); try done. by destruct (ctx_done s).
  - cbv zeta.
    by destruct (mon s),
         (Lifecycle.sample (population (viewers s)) (ctx_done s) _).
Qed.

Lemma reloads_step (s : session) (e : event) :
  reloads (step s e)
  = match e with
    | Deliver ch =>
        match receive ch (viewers s) with
        | Some _ => ch :: reloads s
        | None => reloads s
        end
    | _ => reloads s
    end.
Proof.
  destruct e as [|ch|ch|fs|fs| | | |]; cbn [step]; try done.
  - by destruct (receive ch (viewers s)).
  - by destruct (watch s).
  - destruct (watch s) as [| |paths m|]; try done.
    unfold tick. destruct (poll fs m) as [m' c]. by destruct c.
  - destruct (watch s); try done. by destruct (ctx_done s).
  - cbv zeta.
    by destruct (mon s),
         (Lifecycle.sample (population (viewers s)) (ctx_done s) _).
Qed.

Lemma well_formed_step (s : session) (e : event) :
  well_formed (viewers s) -> well_formed (viewers (step s e)).
Proof.
  intros Hwf. rewrite viewers_step. destruct e; try done.
  - by apply well_formed_subscribe.
  - by apply well_formed_unsubscribe.
  - destruct (receive ch (viewers s)) as [r|] eqn:Hr; [|done].
    by apply (well_formed_receive ch (viewers s)).
  - destruct (refreshing _ s); [|done]. by apply well_formed_notify.
Qed.

Lemma well_formed_exec (tr : list event) (s : session) :
  well_formed (viewers s) -> well_formed (viewers (exec tr s)).
Proof.
  revert s. induction tr as [|e tr IH]; intros s Hwf; [done|].
  cbn. apply IH. by apply well_formed_step.
Qed.

(** What a successful receive does to the channels. *)
Lemma receive_Some (ch : nat) (r r' : registry) :
  receive ch r = Some r' ->
  exists c n,
    ch ∈ clients r /\ chans r !! ch = Some c /\ chan_len c = S n /\
    r' = {| chans := <[ch := {| chan_cap := chan_cap c; chan_len := n |}]>
                       (chans r);
            clients := clients r |}.
Proof.
  unfold receive. destruct (decide (ch ∈ clients r)) as [Hin|]; [|done].
  destruct (chans r !! ch) as [c|] eqn:Hc; [|done]. cbn.
  unfold try_recv. destruct (chan_len c) as [|n] eqn:Hn; [done|]. cbn.
  intros [= <-]. by exists c, n.
Qed.

Lemma pending_notify_bounds (r : registry) (ch : nat) :
  pending r ch <= pending (notifyClients r) ch /\
  pending (notifyClients r) ch <= S (pending r ch).
Proof.
  unfold pending. cbn. rewrite lookup_signal_fold.
  destruct (decide (ch ∈ clients r)); [|lia].
  destruct (chans r !! ch) as [c|]; cbn; [|lia].
  unfold try_send. destruct (chan_len c <? chan_cap c)%nat; cbn; lia.
Qed.

Lemma delivered_cons (ch c : nat) (s : session) (l : list nat) :
  reloads s = c :: l ->
  delivered ch s
  = (if decide (c = ch) then 1 else 0)
    + List.length (filter (fun x => x = ch) l).
Proof.
  intros Hr. unfold delivered. rewrite Hr.
  destruct (decide (c = ch)) as [->|Hne].
  - by rewrite filter_cons_True.
  - by rewrite filter_cons_False.
Qed.

(** One step: the signals handed to the viewer of [ch], written to its
    stream or still in its channel, grow by at most one, and only in a
    refresh. *)
Lemma delivered_step (s : session) (e : event) (ch : nat) :
  delivered ch (step s e) + pending (viewers (step s e)) ch
  <= delivered ch s + pending (viewers s) ch + Nat.b2n (refreshing e s).
Proof.
  assert (Hsame : forall s', reloads s' = reloads s ->
                             delivered ch s' = delivered ch s).
  { intros s' Hs'. unfold delivered. by rewrite Hs'. }
  pose proof (reloads_step s e) as Hr.
  pose proof (viewers_step s e) as Hv.
  destruct e as [|c|c|fs|fs| | | |]; rewrite Hv; try rewrite (Hsame _ Hr);
    try (cbn; lia).
  - unfold pending. cbn.
    destruct (decide (ch = fresh (dom (chans (viewers s))))) as [->|Hne].
    + rewrite lookup_insert_eq. cbn. lia.
    + rewrite lookup_insert_ne by done. lia.
  - unfold pending. cbn. lia.
  - destruct (receive c (viewers s)) as [r'|] eqn:Hrc.
    + apply receive_Some in Hrc as (c0 & n & Hin & Hc0 & Hlen & ->).
      rewrite (delivered_cons ch c _ _ Hr). fold (delivered ch s).
      unfold pending. cbn. destruct (decide (c = ch)) as [->|Hne].
      * rewrite lookup_insert_eq, Hc0, Hlen. cbn. lia.
      * rewrite lookup_insert_ne by done. lia.
    + rewrite (Hsame _ Hr). cbn. lia.
  - destruct (refreshing (Tick fs) s); cbn [Nat.b2n]; [|lia].
    pose proof (pending_notify_bounds (viewers s) ch). lia.
Qed.

Lemma delivered_exec (tr : list event) (s : session) (ch : nat) :
  delivered ch (exec tr s) + pending (viewers (exec tr s)) ch
  <= delivered ch s + pending (viewers s) ch + refreshes tr s.
Proof.
  revert s. induction tr as [|e tr IH]; intros s; [cbn; lia|].
  cbn [exec fold_left refreshes]. fold (exec tr (step s e)).
  pose proof (IH (step s e)). pose proof (delivered_step s e ch). lia.
Qed.

(** X5.  Coalescing never multiplies: at any moment of a session the
    reload events written to a stream, plus the signal that may wait in its
    channel, are at most as many as the ticks that found a change. *)
Theorem deliveries_bounded_by_refreshes (c : bytes) (path : string)
    (args : list string) (tr : list event) (ch : nat) :
  delivered ch (exec tr (start c path args))
  + pending (viewers (exec tr (start c path args))) ch
  <= refreshes tr (start c path args).
Proof.
  pose proof (delivered_exec tr (start c path args) ch) as H.
  unfold delivered at 2 in H. unfold pending at 2 in H. cbn in H.
  rewrite lookup_empty in H. cbn in H. lia.
Qed.

Lemma waiting_signal_step (s : session) (e : event) (ch : nat) :
  well_formed (viewers s) ->
  leaves_stream ch e = true ->
  ch ∈ clients (viewers s) -> pending (viewers s) ch = 1 ->
  ch ∈ clients (viewers (step s e)) /\ pending (viewers (step s e)) ch = 1.
Proof.
  intros Hwf He Hin Hp. rewrite viewers_step.
  destruct (Hwf ch Hin) as (c0 & Hc0 & Hcap & _).
  assert (Hlen : chan_len c0 = 1).
  { unfold pending in Hp. by rewrite Hc0 in Hp. }
  destruct e as [|c|c|fs|fs| | | |]; try done.
  - cbn. split; [apply elem_of_union; by right|].
    unfold pending. cbn. rewrite lookup_insert_ne; [by rewrite Hc0|].
    intros Heq. pose proof (is_fresh (dom (chans (viewers s)))) as Hf.
    apply Hf. rewrite Heq. by apply (elem_of_dom_2 _ _ c0).
  - cbn in He. apply negb_true_iff, Nat.eqb_neq in He.
    split; [|done]. cbn. apply elem_of_difference. split; [done|].
    intros Hc%elem_of_singleton. congruence.
  - cbn in He. apply negb_true_iff, Nat.eqb_neq in He.
    destruct (receive c (viewers s)) as [r'|] eqn:Hrc; [|done].
    apply receive_Some in Hrc as (c1 & n & _ & _ & _ & ->). cbn.
    split; [done|]. unfold pending. cbn.
    rewrite lookup_insert_ne by done. by rewrite Hc0.
  - destruct (refreshing (Tick fs) s); [|done]. split; [done|].
    unfold pending. cbn. rewrite lookup_signal_fold.
    rewrite decide_True by done. rewrite Hc0. cbn.
    by rewrite try_send_full.
Qed.

Lemma waiting_signal_exec (tr : list event) (s : session) (ch : nat) :
  well_formed (viewers s) ->
  forallb (leaves_stream ch) tr = true ->
  ch ∈ clients (viewers s) -> pending (viewers s) ch = 1 ->
  ch ∈ clients (viewers (exec tr s)) /\ pending (viewers (exec tr s)) ch = 1.
Proof.
  revert s. induction tr as [|e tr IH]; intros s Hwf Htr Hin Hp; [done|].
  cbn in Htr. apply andb_true_iff in Htr as [He Htr].
  destruct (waiting_signal_step s e ch Hwf He Hin Hp) as [Hin' Hp'].
  cbn. apply IH; try done. by apply well_formed_step.
Qed.

(** X6.  A signal is not lost: once the channel of a connected viewer
    holds a signal, whatever the other goroutines do (further refreshes,
    other viewers coming, going and receiving, samples, signals) the viewer
    stays registered with its signal waiting, and when its handler
    receives, exactly one reload event is written to its stream and the
    channel is empty again. *)
Theorem signal_waits_for_its_viewer (c : bytes) (path : string)
    (args : list string) (before after : list event) (ch : nat) :
  ch ∈ clients (viewers (exec before (start c path args))) ->
  pending (viewers (exec before (start c path args))) ch = 1 ->
  forallb (leaves_stream ch) after = true ->
  ch ∈ clients (viewers (exec (before ++ after) (start c path args))) /\
  pending (viewers (exec (before ++ after) (start c path args))) ch = 1 /\
  reloads (step (exec (before ++ after) (start c path args)) (Deliver ch))
  = ch :: reloads (exec (before ++ after) (start c path args)) /\
  pending (viewers (step (exec (before ++ after) (start c path args))
                      (Deliver ch))) ch = 0.
Proof.
  intros Hin Hp Hafter. unfold exec. rewrite fold_left_app.
  fold (exec before (start c path args)).
  set (s := exec before (start c path args)) in *.
  fold (exec after s).
  assert (Hwf : well_formed (viewers s)).
  { apply well_formed_exec. apply well_formed_empty. }
  destruct (waiting_signal_exec after s ch Hwf Hafter Hin Hp) as [Hin' Hp'].
  pose proof (well_formed_exec after s Hwf) as Hwf'.
  set (s' := exec after s) in *.
  split; [done|]. split; [done|].
  destruct (Hwf' ch Hin') as (c0 & Hc0 & Hcap & _).
  assert (Hlen : chan_len c0 = 1).
  { unfold pending in Hp'. by rewrite Hc0 in Hp'. }
  assert (Hrc : receive ch (viewers s')
                = Some {| chans := <[ch := {| chan_cap := chan_cap c0;
                                              chan_len := 0 |}]>
                                     (chans (viewers s'));
                          clients := clients (viewers s') |}).
  { unfold receive. rewrite decide_True by done. rewrite Hc0. cbn.
    unfold try_recv. by rewrite Hlen. }
  split.
  - by rewrite reloads_step, Hrc.
  - rewrite viewers_step, Hrc. unfold pending. cbn.
    by rewrite lookup_insert_eq.
Qed.

(** [mdview a.md b.md]: a viewer connects, [b.md] is written and the tick
    signals; a sample, a second viewer and a second change later the
    signal is still there. *)
Lemma signal_waits_for_its_viewer_witness :
  pending
    (viewers
       (exec ([Subscribe; WatchStart (Demo.dir (Some 100%Z) (Some 90%Z));
               Tick (Demo.dir (Some 100%Z) (Some 150%Z))]
              ++ [Sample; Subscribe;
                  Tick (Demo.dir (Some 200%Z) (Some 150%Z)); Deliver 1])
          (start (Combine.join_sources [Demo.doc_a; Demo.doc_b])
             "a.md" ["a.md"; "b.md"]))) 0 = 1.
Proof.
  refine (proj1 (proj2 (signal_waits_for_its_viewer
                          (Combine.join_sources [Demo.doc_a; Demo.doc_b])
                          "a.md" ["a.md"; "b.md"]
                          [Subscribe;
                           WatchStart (Demo.dir (Some 100%Z) (Some 90%Z));
                           Tick (Demo.dir (Some 100%Z) (Some 150%Z))]
                          [Sample; Subscribe;
                           Tick (Demo.dir (Some 200%Z) (Some 150%Z));
                           Deliver 1] 0 _ _ _))).
  - apply (bool_decide_unpack _). vm_compute. exact I.
  - vm_compute. reflexivity.
  - reflexivity.
Defined.

Lemma closed_stream_step (s : session) (e : event) (ch : nat) :
  is_Some (chans (viewers s) !! ch) -> ch ∉ clients (viewers s) ->
  is_Some (chans (viewers (step s e)) !! ch) /\
  (ch ∉ clients (viewers (step s e))) /\
  pending (viewers (step s e)) ch = pending (viewers s) ch /\
  delivered ch (step s e) = delivered ch s.
Proof.
  intros [c0 Hc0] Hout.
  assert (Hsame : forall s', reloads s' = reloads s ->
                             delivered ch s' = delivered ch s).
  { intros s' Hs'. unfold delivered. by rewrite Hs'. }
  pose proof (reloads_step s e) as Hr.
  rewrite viewers_step.
  destruct e as [|c|c|fs|fs| | | |]; try (by rewrite (Hsame _ Hr); eauto).
  - rewrite (Hsame _ Hr).
    assert (Hne : fresh (dom (chans (viewers s))) <> ch).
    { intros Heq. pose proof (is_fresh (dom (chans (viewers s)))) as Hf.
      apply Hf. rewrite Heq. by apply (elem_of_dom_2 _ _ c0). }
    unfold pending. cbn. rewrite lookup_insert_ne by done.
    rewrite Hc0. repeat split; eauto.
    intros [Hs%elem_of_singleton|Hc]%elem_of_union; [congruence|done].
  - rewrite (Hsame _ Hr). cbn. repeat split; eauto.
    intros [Hc _]%elem_of_difference. done.
  - destruct (receive c (viewers s)) as [r'|] eqn:Hrc.
    + apply receive_Some in Hrc as (c1 & n & Hin & _ & _ & ->).
      assert (Hne : c <> ch) by (intros ->; done).
      rewrite (delivered_cons ch c _ _ Hr). fold (delivered ch s).
      rewrite decide_False by done.
      unfold pending. cbn. rewrite lookup_insert_ne by done.
      rewrite Hc0. repeat split; eauto.
    + rewrite (Hsame _ Hr). cbn. eauto.
  - rewrite (Hsame _ Hr). destruct (refreshing (Tick fs) s); [|eauto].
    unfold pending. cbn. rewrite lookup_signal_fold.
    rewrite decide_False by done. rewrite Hc0. eauto.
Qed.

(** X7.  After the handler of a stream has returned, its channel is out of
    the game for good: no later subscription gets its identity, no refresh
    signals it, and nothing more is written to the stream. *)
Theorem closed_stream_stays_closed (s : session) (tr : list event)
    (ch : nat) :
  is_Some (chans (viewers s) !! ch) -> ch ∉ clients (viewers s) ->
  (ch ∉ clients (viewers (exec tr s))) /\
  pending (viewers (exec tr s)) ch = pending (viewers s) ch /\
  delivered ch (exec tr s) = delivered ch s.
Proof.
  revert s. induction tr as [|e tr IH]; intros s Hsome Hout; [done|].
  destruct (closed_stream_step s e ch Hsome Hout) as (Hsome' & Hout' & Hp & Hd).
  cbn [exec fold_left]. fold (exec tr (step s e)).
  destruct (IH (step s e) Hsome' Hout') as (H1 & H2 & H3).
  split; [done|]. split; congruence.
Qed.

(** A viewer connects and leaves; a new viewer and a change later, its
    channel is as it was left. *)
Lemma closed_stream_stays_closed_witness :
  delivered 0
    (exec [Subscribe; Tick (Demo.dir (Some 200%Z) (Some 90%Z)); Deliver 0]
       (exec [Subscribe; WatchStart (Demo.dir (Some 100%Z) (Some 90%Z));
              Disconnect 0] Demo.two_files))
  = delivered 0
      (exec [Subscribe; WatchStart (Demo.dir (Some 100%Z) (Some 90%Z));
             Disconnect 0] Demo.two_files).
Proof.
  refine (proj2 (proj2 (closed_stream_stays_closed
                          (exec [Subscribe;
                                 WatchStart
                                   (Demo.dir (Some 100%Z) (Some 90%Z));
                                 Disconnect 0] Demo.two_files)
                          [Subscribe;
                           Tick (Demo.dir (Some 200%Z) (Some 90%Z));
                           Deliver 0] 0 _ _))).
  - vm_compute. eexists. reflexivity.
  - apply (bool_decide_unpack _). vm_compute. exact I.
Defined.

End StreamMore.


(** ** The change detector: order of iteration, repeated polls, deletion *)

Module DetectorMore.

Import Detector Order Observe Session DetectorFacts WatchFacts.

(** The turns of the loop for two different paths can be exchanged. *)
Lemma poll_path_commute (fs : fsview) (k1 k2 : string) (v1 v2 : Z)
    (acc : gmap string Z * bool) :
  k1 <> k2 ->
  poll_path fs k1 v1 (poll_path fs k2 v2 acc)
  = poll_path fs k2 v2 (poll_path fs k1 v1 acc).
Proof.
  intros Hne. unfold poll_path.
  destruct (fs_stat fs k1) as [t1|], (fs_stat fs k2) as [t2|]; try done.
  destruct (v1 <? t1)%Z, (v2 <? t2)%Z; try done. cbn.
  by rewrite insert_insert_ne.
Qed.

(** X8.  Whatever the order in which the loop over [modTimes] meets the
    entries, each exactly once, the map and the flag [changed] come out
    the same. *)
Theorem poll_order_irrelevant (fs : fsview) (modTimes : gmap string Z)
    (order : list (string * Z)) :
  order ≡ₚ map_to_list modTimes ->
  poll_in_order fs order modTimes = poll fs modTimes.
Proof.
  intros Hperm. unfold poll_in_order, poll.
  rewrite map_fold_foldr, <- fold_left_rev_right.
  rewrite (foldr_ext (uncurry (poll_path fs))
             (fun kv acc => poll_path fs (fst kv) (snd kv) acc)
             (modTimes, false) (modTimes, false)
             (map_to_list modTimes) (map_to_list modTimes))
    by (try done; by intros [k v] acc).
  apply (foldr_permutation (=)
           (fun kv acc => poll_path fs (fst kv) (snd kv) acc)).
  - intros kv acc1 acc2 Hacc. by subst.
  - intros j1 [k1 v1] j2 [k2 v2] acc Hj H1 H2. cbn.
    apply poll_path_commute. intros ->.
    assert (Hnd : NoDup (rev order).*1).
    { rewrite <- Permutation_rev, Hperm. apply NoDup_fst_map_to_list. }
    apply Hj. apply (NoDup_lookup _ j1 j2 k2 Hnd).
    + by rewrite list_lookup_fmap, H1.
    + by rewrite list_lookup_fmap, H2.
  - by rewrite <- Permutation_rev.
Qed.

(** The two entries of [mdview a.md b.md], [b.md] first. *)
Lemma poll_order_irrelevant_witness :
  poll_in_order (Demo.dir (Some 120%Z) (Some 95%Z))
    [("/w/b.md", 90%Z); ("/w/a.md", 100%Z)]
    (baseline (Demo.dir (Some 100%Z) (Some 90%Z)) ["a.md"; "b.md"])
  = poll (Demo.dir (Some 120%Z) (Some 95%Z))
      (baseline (Demo.dir (Some 100%Z) (Some 90%Z)) ["a.md"; "b.md"]).
Proof.
  apply poll_order_irrelevant.
  vm_compute. first [reflexivity | apply perm_swap].
Defined.

Lemma latest_ge (fs : fsview) (a : string) (last : Z) :
  (last <= latest fs a last)%Z.
Proof.
  unfold latest. destruct (fs_stat fs a) as [t|]; [|lia].
  destruct (last <? t)%Z eqn:E; [|lia]. apply Z.ltb_lt in E. lia.
Qed.

Lemma latest_settled (fs : fsview) (a : string) (last : Z) :
  latest fs a (latest fs a last) = latest fs a last.
Proof.
  unfold latest. destruct (fs_stat fs a) as [t|]; [|done].
  destruct (last <? t)%Z eqn:E.
  - by rewrite Z.ltb_irrefl.
  - by rewrite E.
Qed.

Lemma poll_again (fs : fsview) (modTimes : gmap string Z) :
  snd (poll fs (fst (poll fs modTimes))) = false.
Proof.
  destruct (snd (poll fs (fst (poll fs modTimes)))) eqn:Hc; [|done].
  apply poll_changed in Hc as (a & last & t & Ha & Ht & Hlt).
  rewrite poll_lookup in Ha.
  destruct (modTimes !! a) as [last0|]; [|done]. cbn in Ha.
  injection Ha as <-. unfold latest in Hlt. rewrite Ht in Hlt.
  destruct (last0 <? t)%Z eqn:E; [lia|]. apply Z.ltb_ge in E. lia.
Qed.

(** X9.  One modification gives one refresh: a recorded time never moves
    back, and a tick that meets the file system as the tick before met it
    finds no change, leaves the map as it is, and leaves the whole session
    as it is. *)
Theorem one_change_one_refresh (fs : fsview) (modTimes : gmap string Z)
    (s : session) :
  (forall a last, (last <= latest fs a last)%Z) /\
  snd (poll fs (fst (poll fs modTimes))) = false /\
  fst (poll fs (fst (poll fs modTimes))) = fst (poll fs modTimes) /\
  step (step s (Tick fs)) (Tick fs) = step s (Tick fs).
Proof.
  split; [intros; apply latest_ge|]. split; [apply poll_again|].
  split; [apply poll_unchanged, poll_again|].
  cbn [step]. destruct (watch s) as [| |paths m|] eqn:Hw;
    try (by rewrite Hw).
  assert (Hw' : watch (tick fs paths m s) = Polling paths (fst (poll fs m))).
  { unfold tick. destruct (poll fs m) as [m' c]. by destruct c. }
  rewrite Hw'. rewrite tick_unchanged by apply poll_again.
  unfold tick. destruct (poll fs m) as [m' c]. by destruct c.
Qed.

(** X10.  A deletion is not a change: when a tick would find nothing new,
    it finds nothing new either if a file has meanwhile disappeared, and
    the session, snapshot included, stays as it is. *)
Theorem deletion_is_not_a_change (fs : fsview) (a : string)
    (paths : list string) (modTimes : gmap string Z) (s : session) :
  watch s = Polling paths modTimes ->
  snd (poll fs modTimes) = false ->
  snd (poll (vanish a fs) modTimes) = false /\
  step s (Tick (vanish a fs)) = s.
Proof.
  intros Hw Hc.
  assert (Hv : snd (poll (vanish a fs) modTimes) = false).
  { destruct (snd (poll (vanish a fs) modTimes)) eqn:Hv; [|done].
    apply poll_changed in Hv as (k & last & t & Hk & Ht & Hlt).
    cbn in Ht. destruct (decide (k = a)); [done|].
    assert (snd (poll fs modTimes) = true)
      by (apply poll_changed; eauto 6).
    congruence. }
  split; [done|]. cbn [step]. rewrite Hw, tick_unchanged by done.
  destruct s. cbn in *. by subst.
Qed.

(** [mdview a.md b.md]: [b.md] is deleted and nothing else happens. *)
Lemma deletion_is_not_a_change_witness :
  step (step Demo.two_files (WatchStart (Demo.dir (Some 100%Z) (Some 90%Z))))
    (Tick (vanish "/w/b.md" (Demo.dir (Some 100%Z) (Some 90%Z))))
  = step Demo.two_files (WatchStart (Demo.dir (Some 100%Z) (Some 90%Z))).
Proof.
  refine (proj2 (deletion_is_not_a_change
                   (Demo.dir (Some 100%Z) (Some 90%Z)) "/w/b.md"
                   ["a.md"; "b.md"]
                   (baseline (Demo.dir (Some 100%Z) (Some 90%Z))
                      ["a.md"; "b.md"])
                   (step Demo.two_files
                      (WatchStart (Demo.dir (Some 100%Z) (Some 90%Z))))
                   _ _)).
  - reflexivity.
  - vm_compute. reflexivity.
Defined.

End DetectorMore.


(** ** The snapshot: where it comes from *)

Module SnapshotMore.

Import Broadcaster Detector Session Observe DetectorFacts WatchFacts.

Lemma read_all_readable (fs : fsview) (args : list string) :
  Forall (fun p => exists d, fs_read fs p = Ok d) args ->
  Combine.read_all fs args = Ok (Combine.readable fs args).
Proof.
  unfold Combine.readable. induction 1 as [|a rest [d Hd] _ IH]; [done|].
  cbn [Combine.read_all omap list_omap]. by rewrite Hd, IH.
Qed.

Lemma read_all_inv (fs : fsview) (args : list string) (l : list bytes) :
  Combine.read_all fs args = Ok l ->
  Forall (fun p => exists d, fs_read fs p = Ok d) args /\
  Combine.readable fs args = l.
Proof.
  unfold Combine.readable. revert l.
  induction args as [|a rest IH]; intros l.
  - cbn. by intros [= <-].
  - cbn [Combine.read_all omap list_omap].
    destruct (fs_read fs a) as [d|e] eqn:Ha; [|done].
    destruct (Combine.read_all fs rest) as [l'|e'] eqn:Hrest; [|done].
    cbn. intros [= <-]. destruct (IH l' eq_refl) as [Hall ->].
    split; [|done]. apply Forall_cons. eauto.
Qed.

Lemma read_all_Ok (fs : fsview) (args : list string) (l : list bytes) :
  Combine.read_all fs args = Ok l <->
  Forall (fun p => exists d, fs_read fs p = Ok d) args /\
  Combine.readable fs args = l.
Proof.
  split; [apply read_all_inv|]. intros [Hall <-]. by apply read_all_readable.
Qed.

(** X11.  Startup and refresh build the same snapshot: the loop of [run]
    succeeds exactly when every named file can be read, and then gives
    what the loop of [watchFiles] gives on the same files. *)
Theorem startup_and_refresh_agree (fs : fsview) (args : list string)
    (c : bytes) :
  Combine.read_args fs args [] = Ok c <->
  Forall (fun p => exists d, fs_read fs p = Ok d) args /\
  Combine.reread fs args [] = c.
Proof.
  rewrite CombineFacts.read_args_fold, CombineFacts.reread_fold.
  destruct (Combine.read_all fs args) as [l|e] eqn:Hl; cbn.
  - apply read_all_Ok in Hl as [Hall <-]. split.
    + by intros [= <-].
    + by intros [_ <-].
  - split; [done|]. intros [Hall _].
    assert (Combine.read_all fs args = Ok (Combine.readable fs args))
      by by apply read_all_Ok.
    congruence.
Qed.

Lemma watches_step (args : list string) (s : session) (e : event) :
  watches args s -> watches args (step s e).
Proof.
  unfold watches. intros H.
  destruct (watch_step s e)
    as [->|[(fs & ps & _ & Hw & ->)|[(fs & ps & m & _ & Hw & ->)
                                    |(ps & m & _ & _ & ->)]]];
    try done; by rewrite Hw in H.
Qed.

(** One step either keeps the snapshot or is a tick that installs what it
    could read. *)
Lemma content_step (args : list string) (s : session) (e : event) :
  watches args s ->
  content (step s e) = content s \/
  exists fs, e = Tick fs /\
             content (step s e)
             = Combine.join_sources (Combine.readable fs args).
Proof.
  intros Hwa.
  destruct e as [|ch|ch|fs|fs| | | |]; cbn [step]; auto.
  - left. by destruct (receive ch (viewers s)).
  - left. by destruct (watch s).
  - unfold watches in Hwa.
    destruct (watch s) as [| |paths m|] eqn:Hw; auto. subst paths.
    destruct (snd (poll fs m)) eqn:Hc.
    + right. exists fs. split; [done|]. rewrite tick_changed by done.
      cbn. by rewrite CombineFacts.reread_fold.
    + left. by rewrite tick_unchanged.
  - left. destruct (watch s); try done. by destruct (ctx_done s).
  - left. cbv zeta.
    by destruct (mon s),
         (Lifecycle.sample (population (viewers s)) (ctx_done s) _).
Qed.

Lemma content_exec (args : list string) (tr : list event) (s : session) :
  watches args s ->
  snapshot_of (content s) args tr (content (exec tr s)).
Proof.
  revert s. induction tr as [|e tr IH]; intros s Hwa; [by left|].
  cbn [exec fold_left]. fold (exec tr (step s e)).
  destruct (IH (step s e) (watches_step args s e Hwa))
    as [Hsame|(fs & Hin & Hc)].
  - rewrite Hsame. destruct (content_step args s e Hwa)
      as [->|(fs & -> & ->)]; [by left|].
    right. exists fs. split; [apply list_elem_of_here|done].
  - right. exists fs. split; [by apply list_elem_of_further|done].
Qed.

Lemma filePath_step (s : session) (e : event) :
  filePath (step s e) = filePath s.
Proof.
  destruct e as [|ch|ch|fs|fs| | | |]; cbn [step]; try done.
  - by destruct (receive ch (viewers s)).
  - by destruct (watch s).
  - destruct (watch s) as [| |paths m|]; try done.
    unfold tick. destruct (poll fs m) as [m' c]. by destruct c.
  - destruct (watch s); try done. by destruct (ctx_done s).
  - cbv zeta.
    by destruct (mon s),
         (Lifecycle.sample (population (viewers s)) (ctx_done s) _).
Qed.

(** X12.  Every snapshot a session ever holds is the one read at startup
    or the join, in the order of the arguments, of what one tick of the
    execution could read of the files named at startup; [filePath] never
    changes. *)
Theorem snapshot_provenance (c : bytes) (path : string)
    (args : list string) (tr : list event) :
  snapshot_of c args tr (content (exec tr (start c path args))) /\
  filePath (exec tr (start c path args)) = path.
Proof.
  split.
  - apply (content_exec args tr (start c path args)).
    unfold watches, start. cbn. by destruct (decide _).
  - assert (H : forall s, filePath (exec tr s) = filePath s).
    { induction tr as [|e tr IH]; intros s; [done|].
      cbn [exec fold_left]. fold (exec tr (step s e)).
      by rewrite IH, filePath_step. }
    by rewrite H.
Qed.

Lemma stopped_step (s : session) (e : event) :
  watch s = Stopped ->
  watch (step s e) = Stopped /\ content (step s e) = content s /\
  refreshing e s = false.
Proof.
  intros Hw. split; [|split].
  - destruct (watch_step s e)
      as [->|[(fs & ps & _ & Hw' & _)|[(fs & ps & m & _ & Hw' & _)
                                      |(ps & m & _ & Hw' & _)]]];
      congruence.
  - destruct (content_step [] s e) as [?|(fs & -> & _)]; try done.
    + unfold watches. by rewrite Hw.
    + cbn. by rewrite Hw.
  - unfold refreshing. rewrite Hw. by destruct e.
Qed.

(** X13.  Once [watchFiles] has returned through the cancelled context,
    the snapshot is frozen: in everything that follows there is no
    refresh, the snapshot stays what it was, and for every viewer the
    reload events written plus the signal waiting do not grow. *)
Theorem stopped_watcher_is_silent (s : session) (tr : list event)
    (ch : nat) :
  watch s = Stopped ->
  watch (exec tr s) = Stopped /\
  content (exec tr s) = content s /\
  refreshes tr s = 0 /\
  delivered ch (exec tr s) + pending (viewers (exec tr s)) ch
  <= delivered ch s + pending (viewers s) ch.
Proof.
  intros Hw.
  assert (H : watch (exec tr s) = Stopped /\
              content (exec tr s) = content s /\ refreshes tr s = 0).
  { revert s Hw. induction tr as [|e tr IH]; intros s Hw; [done|].
    destruct (stopped_step s e Hw) as (Hw' & Hc & Hr).
    cbn [exec fold_left refreshes]. fold (exec tr (step s e)).
    destruct (IH (step s e) Hw') as (H1 & H2 & H3).
    rewrite Hr, H3. split; [done|]. split; [congruence|done]. }
  destruct H as (H1 & H2 & H3). split; [done|]. split; [done|].
  split; [done|].
  pose proof (StreamMore.delivered_exec tr s ch). lia.
Qed.

(** [mdview a.md b.md]: the server fails, the watcher returns, and a file
    written afterwards does not reach the snapshot. *)
Lemma stopped_watcher_is_silent_witness :
  content (exec [Tick (Demo.dir (Some 500%Z) None); Subscribe;
                 Tick (Demo.dir (Some 600%Z) None)]
             (exec [WatchStart (Demo.dir (Some 100%Z) (Some 90%Z));
                    ServeError; WatchStop] Demo.two_files))
  = content (exec [WatchStart (Demo.dir (Some 100%Z) (Some 90%Z));
                   ServeError; WatchStop] Demo.two_files).
Proof.
  refine (proj1 (proj2 (stopped_watcher_is_silent
                          (exec [WatchStart
                                   (Demo.dir (Some 100%Z) (Some 90%Z));
                                 ServeError; WatchStop] Demo.two_files)
                          [Tick (Demo.dir (Some 500%Z) None); Subscribe;
                           Tick (Demo.dir (Some 600%Z) None)] 0 _))).
  reflexivity.
Defined.

End SnapshotMore.


(** ** The shutdown trigger and the sampling goroutine *)

Module LifecycleMore.

Import Broadcaster Lifecycle Session Observe LifecycleFacts LifecycleClaims.

(** X14.  The [select] of [run] is taken once: the first cause stands,
    whatever happens afterwards. *)
Theorem first_cause_wins (s : session) (tr : list event) (c : cause) :
  shutdown s = Some c -> shutdown (exec tr s) = Some c.
Proof.
  revert s. induction tr as [|e tr IH]; intros s Hs; [done|].
  cbn. apply IH. by apply shutdown_step.
Qed.

(** An interrupt arrives first; the server error and the viewer that
    leaves afterwards do not change the cause. *)
Lemma first_cause_wins_witness :
  shutdown (exec [ServeError; Subscribe; Sample; Disconnect 0; Sample]
              (exec [Signal] Demo.two_files))
  = Some Interrupt.
Proof.
  apply (first_cause_wins (exec [Signal] Demo.two_files)
           [ServeError; Subscribe; Sample; Disconnect 0; Sample] Interrupt).
  reflexivity.
Defined.

(** Where a cause comes from. *)
Lemma shutdown_step_inv (s : session) (e : event) (c : cause) :
  shutdown (step s e) = Some c ->
  shutdown s = Some c \/
  (shutdown s = None /\
   ((e = Signal /\ c = Interrupt) \/ (e = ServeError /\ c = Cancelled) \/
    (e = Sample /\ c = Drained))).
Proof.
  destruct (shutdown s) as [c0|] eqn:Hs.
  - rewrite (shutdown_step s e c0 Hs). intros [= <-]. by left.
  - intros Hc. right. split; [done|].
    destruct e as [|ch|ch|fs|fs| | | |]; cbn [step] in Hc.
    + cbn in Hc. congruence.
    + cbn in Hc. congruence.
    + destruct (receive ch (viewers s)); cbn in Hc; congruence.
    + destruct (watch s); cbn in Hc; congruence.
    + destruct (watch s) as [| |paths m|]; try congruence.
      unfold tick in Hc. destruct (Detector.poll fs m) as [m' c'].
      destruct c'; cbn in Hc; congruence.
    + destruct (watch s); try congruence.
      destruct (ctx_done s); cbn in Hc; congruence.
    + cbv zeta in Hc. right; right. split; [done|].
      destruct (mon s),
        (sample (population (viewers s)) (ctx_done s) _);
        unfold trigger in Hc; cbn in Hc; rewrite ?Hs in Hc; congruence.
    + unfold trigger in Hc. cbn in Hc. rewrite Hs in Hc.
      left. split; congruence.
    + unfold trigger in Hc. cbn in Hc. rewrite Hs in Hc.
      right; left. split; congruence.
Qed.

Lemma subscribe_or_not (tr : list event) :
  Subscribe ∈ tr \/ Forall (fun e => is_subscribe e = false) tr.
Proof.
  induction tr as [|e tr [IH|IH]].
  - right. constructor.
  - left. by apply list_elem_of_further.
  - destruct e; try (right; by constructor).
    left. apply list_elem_of_here.
Qed.

Lemma exec_snoc (tr : list event) (e : event) (s : session) :
  exec (tr ++ [e]) s = step (exec tr s) e.
Proof. unfold exec. by rewrite fold_left_app. Qed.

(** X15.  The process shuts down only for a reason that has happened: in
    an execution from startup, the cause is an interrupt only if a signal
    arrived, a cancellation only if the server failed, a drain only if a
    viewer had subscribed; and as long as no cause is set, neither a
    signal nor a server failure has occurred. *)
Theorem cause_has_happened (c : bytes) (path : string) (args : list string)
    (tr : list event) :
  match shutdown (exec tr (start c path args)) with
  | Some Interrupt => Signal ∈ tr
  | Some Cancelled => ServeError ∈ tr
  | Some Drained => Subscribe ∈ tr
  | None => (Signal ∉ tr) /\ (ServeError ∉ tr)
  end.
Proof.
  induction tr as [|e tr IH] using rev_ind.
  - cbn. split; apply not_elem_of_nil.
  - rewrite exec_snoc.
    destruct (shutdown (step (exec tr (start c path args)) e))
      as [c1|] eqn:Hc1.
    + assert (Hd : c1 = Drained -> Subscribe ∈ tr ++ [e]).
      { intros ->.
        destruct (subscribe_or_not (tr ++ [e])) as [|Hall]; [done|].
        exfalso.
        destruct (idle_exec (tr ++ [e]) (start c path args) Hall)
          as (_ & _ & Hdr).
        { unfold idle. cbn. auto. }
        rewrite exec_snoc in Hdr. unfold drained in Hdr.
        by rewrite Hc1 in Hdr. }
      apply shutdown_step_inv in Hc1
        as [Hold|(Hnone & [[-> ->]|[[-> ->]|[-> ->]]])].
      * rewrite Hold in IH. destruct c1.
        -- apply elem_of_app. by left.
        -- by apply Hd.
        -- apply elem_of_app. by left.
      * apply elem_of_app. right. apply list_elem_of_here.
      * apply elem_of_app. right. apply list_elem_of_here.
      * by apply Hd.
    + destruct (shutdown (exec tr (start c path args))) as [c0|] eqn:Hc0.
      { by rewrite (shutdown_step _ e c0 Hc0) in Hc1. }
      destruct IH as [Hs He].
      assert (Hne : e <> Signal /\ e <> ServeError).
      { split; intros ->; cbn [step] in Hc1; unfold trigger in Hc1;
          cbn in Hc1; rewrite ?Hc0 in Hc1; done. }
      destruct Hne as [Hn1 Hn2].
      split; intros [Hin|Hin%list_elem_of_singleton]%elem_of_app; done.
Qed.

Lemma ctx_done_step (s : session) (e : event) :
  ctx_done s = true -> ctx_done (step s e) = true.
Proof.
  intros Hd.
  destruct e as [|ch|ch|fs|fs| | | |]; cbn [step]; try done.
  - by destruct (receive ch (viewers s)).
  - by destruct (watch s).
  - destruct (watch s) as [| |paths m|]; try done.
    unfold tick. destruct (Detector.poll fs m) as [m' c]. by destruct c.
  - destruct (watch s); try done. by rewrite Hd.
  - cbv zeta.
    destruct (mon s), (sample (population (viewers s)) (ctx_done s) _);
      exact Hd.
Qed.

Lemma observations_cancelled (tr : list event) (s : session) :
  ctx_done s = true ->
  Forall (fun o => snd o = true) (observations tr s) /\
  List.length (observations tr s) = List.length (filter is_sample tr).
Proof.
  revert s. induction tr as [|e tr IH]; intros s Hd; [done|].
  destruct (IH (step s e) (ctx_done_step s e Hd)) as [Hall Hlen].
  destruct e; cbn [observations];
    try (rewrite filter_cons_False by (intros []); by split).
  rewrite filter_cons_True by exact I. split.
  - apply Forall_cons. by split.
  - cbn [List.length]. f_equal. exact Hlen.
Qed.

Lemma run_cancelled (obs : list (nat * bool)) (m : monitor) :
  Forall (fun o => snd o = true) obs -> 2 <= List.length obs ->
  monitor_run obs m = Fired \/ monitor_run obs m = Returned.
Proof.
  intros Hall Hlen.
  destruct obs as [|[n1 d1] [|[n2 d2] obs]]; cbn in Hlen; try lia.
  apply Forall_cons in Hall as [Hd1 Hall].
  apply Forall_cons in Hall as [Hd2 _]. cbn in Hd1, Hd2. subst.
  change (monitor_run ((n1, true) :: (n2, true) :: obs) m)
    with (monitor_run obs (sample n2 true (sample n1 true m))).
  assert (Hm : sample n2 true (sample n1 true m) = Fired \/
               sample n2 true (sample n1 true m) = Returned).
  { destruct m, n1, n2; cbn; auto. }
  destruct Hm as [-> | ->]; [left; apply run_fired|right; apply run_returned].
Qed.

(** X16.  After the context is cancelled the sampling goroutine does not
    linger: by its second sample at the latest it has closed
    [disconnectCh] or returned. *)
Theorem monitor_ends_after_cancel (s : session) (tr : list event) :
  ctx_done s = true ->
  2 <= List.length (filter is_sample tr) ->
  mon (exec tr s) = Fired \/ mon (exec tr s) = Returned.
Proof.
  intros Hd Hlen. rewrite mon_exec.
  destruct (observations_cancelled tr s Hd) as [Hall Hobs].
  apply run_cancelled; [done|]. by rewrite Hobs.
Qed.

(** A viewer is connected when the server fails: the first sample moves
    the goroutine to its second loop, the second ends it. *)
Lemma monitor_ends_after_cancel_witness :
  mon (exec [Sample; Tick (Demo.dir (Some 100%Z) (Some 90%Z)); Sample]
         (exec [Subscribe; ServeError] Demo.two_files)) = Fired \/
  mon (exec [Sample; Tick (Demo.dir (Some 100%Z) (Some 90%Z)); Sample]
         (exec [Subscribe; ServeError] Demo.two_files)) = Returned.
Proof.
  apply (monitor_ends_after_cancel
           (exec [Subscribe; ServeError] Demo.two_files)
           [Sample; Tick (Demo.dir (Some 100%Z) (Some 90%Z)); Sample]).
  - reflexivity.
  - vm_compute. lia.
Defined.

End LifecycleMore.


(** ** The mutex of the store: exclusion, progress, rest *)

Module StoreMore.

Import Store StoreObs StoreFacts.

(** X17.  Mutual exclusion: while a refresh is between [mu.Lock()] and
    [mu.Unlock()], no other goroutine is inside a critical section of
    [mu], reading or writing, and the mutex shows one writer and no
    reader. *)
Theorem writer_excludes_all (b0 : bytes) (jobs : list job)
    (schedule : list nat) (i j : nat) (ti tj : thread) :
  threads (exec schedule (init b0 jobs)) !! i = Some ti ->
  threads (exec schedule (init b0 jobs)) !! j = Some tj ->
  holds_write ti = true -> i <> j ->
  holds_read tj = false /\ holds_write tj = false /\
  writer (mu (exec schedule (init b0 jobs))) = true /\
  readers (mu (exec schedule (init b0 jobs))) = 0.
Proof.
  intros Hi Hj Hh Hne.
  pose proof (invariant_exec b0 jobs schedule _ (invariant_init b0 jobs))
    as Hinv.
  destruct (writer_holds _ _ _ _ _ Hinv Hi Hh) as [Hw Hr].
  split; [|split; [|done]].
  - apply (count_zero holds_read
             (threads (exec schedule (init b0 jobs))) j tj); [|done].
    by rewrite <- (inv_readers _ _ _ Hinv).
  - apply (count_one holds_write
             (threads (exec schedule (init b0 jobs))) i j ti tj);
      try done; try congruence.
    rewrite <- (inv_writer _ _ _ Hinv), Hw. done.
Qed.

(** A render is let in first; the refresh takes the lock once the render
    has released it, and the second render waits outside. *)
Lemma writer_excludes_all_witness :
  holds_read (Reader RStart nil_slice []) = false /\
  writer (mu (exec [1; 0; 0; 0; 0; 0; 1; 2; 1]
                (init Demo.doc_a [Render; Install Demo.doc_b; Render])))
  = true.
Proof.
  pose proof (writer_excludes_all Demo.doc_a
                [Render; Install Demo.doc_b; Render]
                [1; 0; 0; 0; 0; 0; 1; 2; 1] 1 2
                (Writer WPtr Demo.doc_b {| ptr := 1; len := 3; cap := 3 |})
                (Reader RStart nil_slice [])) as H.
  destruct H as (H1 & _ & H3 & _).
  - vm_compute. reflexivity.
  - vm_compute. reflexivity.
  - reflexivity.
  - lia.
  - split; [exact H1|exact H3].
Defined.

Lemma count_witness (f : thread -> bool) (ts : list thread) :
  1 <= count f ts -> exists i t, ts !! i = Some t /\ f t = true.
Proof.
  induction ts as [|x ts IH]; cbn; [lia|].
  destruct (f x) eqn:Hx.
  - intros _. by exists 0, x.
  - cbn. intros H. destruct (IH H) as (i & t & Hi & Ht).
    by exists (S i), t.
Qed.

(** A goroutine inside a critical section can always take its next
    step. *)
Lemma holder_moves (s : state) (i : nat) (t : thread) :
  threads s !! i = Some t ->
  holds_read t = true \/ holds_write t = true ->
  step s i <> s.
Proof.
  intros Hi Hh Heq.
  assert (Hlen : i < List.length (threads s)) by by eapply lookup_lt_Some.
  assert (Hnew : threads (step s i) !! i = Some t) by by rewrite Heq.
  unfold step in Hnew. rewrite Hi in Hnew.
  destruct t as [pc src out|pc d sl];
    destruct pc; destruct Hh as [Hh|Hh]; try discriminate Hh;
    cbn in Hnew; rewrite list_lookup_insert_eq in Hnew by done;
    discriminate Hnew.
Qed.

(** A goroutine outside, not yet finished, can take its next step when the
    mutex is free. *)
Lemma outsider_moves (s : state) (i : nat) (t : thread) :
  threads s !! i = Some t ->
  writer (mu s) = false -> readers (mu s) = 0 ->
  finished t = false -> step s i <> s.
Proof.
  intros Hi Hw Hr Hf Heq.
  assert (Hlen : i < List.length (threads s)) by by eapply lookup_lt_Some.
  assert (Hnew : threads (step s i) !! i = Some t) by by rewrite Heq.
  unfold step in Hnew. rewrite Hi in Hnew.
  destruct t as [pc src out|pc d sl]; destruct pc; try discriminate Hf;
    cbn in Hnew; rewrite ?Hw, ?Hr in Hnew; cbn in Hnew;
    rewrite list_lookup_insert_eq in Hnew by done;
    discriminate Hnew.
Qed.

(** X18.  No deadlock: in every state the goroutines can reach, as long as
    one of them has not finished, some goroutine can take a step. *)
Theorem store_never_deadlocks (b0 : bytes) (jobs : list job)
    (schedule : list nat) (i : nat) (t : thread) :
  threads (exec schedule (init b0 jobs)) !! i = Some t ->
  finished t = false ->
  exists k, step (exec schedule (init b0 jobs)) k
            <> exec schedule (init b0 jobs).
Proof.
  intros Hi Hf.
  pose proof (invariant_exec b0 jobs schedule _ (invariant_init b0 jobs))
    as Hinv.
  set (s := exec schedule (init b0 jobs)) in *.
  destruct (writer (mu s)) eqn:Hw.
  - destruct (count_witness holds_write (threads s)) as (k & tk & Hk & Hh).
    { rewrite <- (inv_writer _ _ _ Hinv), Hw. done. }
    exists k. apply (holder_moves s k tk); auto.
  - destruct (readers (mu s)) as [|n] eqn:Hr.
    + exists i. by apply (outsider_moves s i t).
    + destruct (count_witness holds_read (threads s)) as (k & tk & Hk & Hh).
      { rewrite <- (inv_readers _ _ _ Hinv), Hr. lia. }
      exists k. apply (holder_moves s k tk); auto.
Qed.

(** A refresh that waits for the lock while a render holds it: the render
    can go on. *)
Lemma store_never_deadlocks_witness :
  exists k,
    step (exec [1; 0; 0; 1]
            (init Demo.doc_a [Render; Install Demo.doc_b])) k
    <> exec [1; 0; 0; 1] (init Demo.doc_a [Render; Install Demo.doc_b]).
Proof.
  apply (store_never_deadlocks Demo.doc_a [Render; Install Demo.doc_b]
           [1; 0; 0; 1] 1
           (Writer WBuilt Demo.doc_b {| ptr := 1; len := 3; cap := 3 |})).
  - vm_compute. reflexivity.
  - reflexivity.
Defined.





(** X20.  At rest the store is sound: when every goroutine has finished,
    the mutex is free, and [content] denotes, whole, the snapshot of
    startup or the data of one of the refreshes. *)
Theorem store_at_rest (b0 : bytes) (jobs : list job) (schedule : list nat) :
  Forall (fun t => finished t = true)
    (threads (exec schedule (init b0 jobs))) ->
  mu (exec schedule (init b0 jobs)) = {| writer := false; readers := 0 |} /\
  (bytes_of (heap (exec schedule (init b0 jobs)))
     (content (exec schedule (init b0 jobs))) = b0 \/
   exists j,
     jobs !! j
     = Some (Install (bytes_of (heap (exec schedule (init b0 jobs)))
                        (content (exec schedule (init b0 jobs)))))).
Proof.
  intros Hall.
  pose proof (invariant_exec b0 jobs schedule _ (invariant_init b0 jobs))
    as Hinv.
  set (s := exec schedule (init b0 jobs)) in *.
  assert (Hzero : forall f, (forall t, finished t = true -> f t = false) ->
                            count f (threads s) = 0).
  { intros f Hf. induction Hall as [|t ts Ht _ IH]; [done|].
    cbn. by rewrite (Hf t Ht), IH. }
  assert (Hr : readers (mu s) = 0).
  { rewrite (inv_readers _ _ _ Hinv). apply Hzero.
    by intros [[] ? ?|[] ? ?]. }
  assert (Hw : writer (mu s) = false).
  { pose proof (inv_writer _ _ _ Hinv) as Hw. rewrite Hzero in Hw.
    - by destruct (writer (mu s)).
    - by intros [[] ? ?|[] ? ?]. }
  split.
  { destruct (mu s). cbn in *. by subst. }
  destruct (inv_content _ _ _ Hinv Hw) as [d Hd].
  rewrite (installed_bytes b0 jobs s _ d Hinv Hd).
  destruct Hd as [[_ ->]|(j & pc & Hj & _)]; [by left|]. right.
  exists j. rewrite <- (inv_jobs _ _ _ Hinv), list_lookup_fmap, Hj. done.
Qed.

(** A render and a refresh, both run to their end. *)
Lemma store_at_rest_witness :
  mu (exec [1; 0; 0; 1; 0; 0; 0; 1; 1; 1; 1; 1; 0]
        (init Demo.doc_a [Render; Install Demo.doc_b]))
  = {| writer := false; readers := 0 |}.
Proof.
  refine (proj1 (store_at_rest Demo.doc_a [Render; Install Demo.doc_b]
                   [1; 0; 0; 1; 0; 0; 0; 1; 1; 1; 1; 1; 0] _)).
  vm_compute. repeat constructor.
Defined.

End StoreMore.


(** ** Startup: when the server starts *)

Module StartupMore.

Import Session Startup StartupObs.





(** X22.  Named files are watched: when [run] gets to serve an invocation
    with arguments, the session it starts holds the join of the named
    files as snapshot and the first argument as [filePath], has no viewer
    yet, and [watchFiles] is started on all the arguments.  (The empty
    path cannot be opened, so [filePath] is not empty.) *)
Theorem named_files_are_watched (inv : invocation) (log : list effect)
    (s : session) :
  (forall d, fs_read (inv_fs inv) EmptyString <> Ok d) ->
  inv_args inv <> [] ->
  run inv = (log, Serving s) ->
  s = start (Combine.join_sources
               (Combine.readable (inv_fs inv) (inv_args inv)))
        (List.hd EmptyString (inv_args inv)) (inv_args inv) /\
  watch s = Spawned (inv_args inv) /\
  GoWatch (inv_args inv) ∈ log /\
  all_readable inv.
Proof.
  intros Hempty Hargs Hrun. unfold all_readable.
  unfold run, load in Hrun.
  destruct (existsb is_help (inv_args inv)); [done|].
  destruct (inv_args inv) as [|a rest] eqn:Ha; [done|].
  rewrite CombineFacts.read_args_fold in Hrun.
  destruct (Combine.read_all (inv_fs inv) (a :: rest)) as [l|e] eqn:Hl;
    [|done].
  apply SnapshotMore.read_all_Ok in Hl as [Hall <-]. cbn in Hrun.
  assert (Hne : a <> EmptyString).
  { intros ->. apply Forall_cons in Hall as [[d Hd] _].
    by apply (Hempty d). }
  unfold serve in Hrun. destruct (inv_listen inv) as [port|e]; [|done].
  rewrite Ha in Hrun. rewrite decide_False in Hrun by done.
  injection Hrun as <- <-. cbn [List.hd].
  split; [done|]. split.
  { unfold start. cbn. by rewrite decide_False. }
  split; [|done].
  cbn. do 4 apply list_elem_of_further.
  destruct (inv_browser inv); cbn;
    [apply list_elem_of_further|]; apply list_elem_of_here.
Qed.

(** [mdview a.md b.md]. *)
Lemma named_files_are_watched_witness :
  watch (start (Combine.join_sources [Demo.doc_a; Demo.doc_b])
           "a.md" ["a.md"; "b.md"])
  = Spawned ["a.md"; "b.md"].
Proof.
  refine (proj1 (proj2 (named_files_are_watched DemoRun.two_files
                          (fst (run DemoRun.two_files))
                          (start (Combine.join_sources
                                    [Demo.doc_a; Demo.doc_b])
                             "a.md" ["a.md"; "b.md"]) _ _ _))).
  - intros d. discriminate.
  - discriminate.
  - vm_compute. reflexivity.
Defined.

(** What a failing [openBrowser] changes in the startup. *)
Lemma browser_log (inv : invocation) (e : string) :
  snd (main (with_browser (Some e) inv))
  = snd (main (with_browser None inv)) /\
  ((existsb starts_server (fst (main (with_browser None inv))) = false /\
    fst (main (with_browser (Some e) inv))
    = fst (main (with_browser None inv))) \/
   (exists port before after,
      inv_listen inv = Ok port /\
      fst (main (with_browser None inv))
      = before ++ [OpenBrowser (Browser.url_of port)] ++ after /\
      fst (main (with_browser (Some e) inv))
      = before ++ [OpenBrowser (Browser.url_of port)]
          ++ [Stderr ("Could not open browser: " +:+ e +:+ nl +:+
                      "Open " +:+ Browser.url_of port +:+ " manually." +:+
                      nl)]
          ++ after /\
      (OpenBrowser (Browser.url_of port) ∉ before) /\
      (OpenBrowser (Browser.url_of port) ∉ after))).
Proof.
  assert (Hout : forall (port : N) (after : list effect),
             (forall x, x ∈ after -> exists ps, x = GoWatch ps \/ x = GoMonitor)
             -> (OpenBrowser (Browser.url_of port)
                   ∉ [Listen; Serve;
                      Stderr ("Serving at " +:+ Browser.url_of port +:+ nl)])
                /\ (OpenBrowser (Browser.url_of port) ∉ after)).
  { intros port after Hafter. split.
    - intros H. repeat (apply elem_of_cons in H as [H|H]; [done|]).
      by apply not_elem_of_nil in H.
    - intros H. by destruct (Hafter _ H) as [ps [?|?]]. }
  unfold main, run, load, serve, with_browser. cbn.
  destruct (existsb is_help (inv_args inv)); [cbn; split; [done|by left]|].
  destruct (inv_args inv) as [|a rest].
  - destruct (inv_stdin_tty inv); [cbn; split; [done|by left]|].
    destruct (inv_stdin inv) as [d|e']; [|cbn; split; [done|by left]].
    destruct (inv_listen inv) as [port|e']; cbn; [|split; [done|by left]].
    split; [done|]. right.
    exists port,
      [Listen; Serve; Stderr ("Serving at " +:+ Browser.url_of port +:+ nl)],
      [GoMonitor].
    split; [done|]. split; [done|]. split; [done|]. apply Hout.
    intros x ->%list_elem_of_singleton. exists []. by right.
  - destruct (Combine.read_args (inv_fs inv) (a :: rest) [])
      as [c|e']; [|cbn; split; [done|by left]].
    destruct (inv_listen inv) as [port|e']; cbn; [|split; [done|by left]].
    split; [done|]. right.
    exists port,
      [Listen; Serve; Stderr ("Serving at " +:+ Browser.url_of port +:+ nl)],
      ((if decide (a = EmptyString) then [] else [GoWatch (a :: rest)])
       ++ [GoMonitor]).
    split; [done|]. split; [done|]. split; [done|]. apply Hout.
    intros x Hx. exists (a :: rest).
    destruct (decide (a = EmptyString)); cbn in Hx;
      repeat (apply elem_of_cons in Hx as [->|Hx]; [auto|]);
      by apply not_elem_of_nil in Hx.
Qed.

(** X23.  A browser that cannot be opened is not fatal: whether
    [openBrowser] fails or not, the invocation comes to the same end (the
    same session is served, or the same status is returned), and the
    process ends with the same exit status.  The output is the same when
    no server is started; when one is, the output of the failing run is
    that of the other with exactly one line more, put right after the
    attempt to open the browser: the message that gives the error and
    tells the operator to open the URL by hand. *)
Theorem browser_failure_is_not_fatal (inv : invocation) (e : string) :
  snd (main (with_browser (Some e) inv))
  = snd (main (with_browser None inv)) /\
  ((existsb starts_server (fst (main (with_browser None inv))) = false /\
    fst (main (with_browser (Some e) inv))
    = fst (main (with_browser None inv))) \/
   (exists port before after,
      inv_listen inv = Ok port /\
      fst (main (with_browser None inv))
      = before ++ [OpenBrowser (Browser.url_of port)] ++ after /\
      fst (main (with_browser (Some e) inv))
      = before ++ [OpenBrowser (Browser.url_of port)]
          ++ [Stderr ("Could not open browser: " +:+ e +:+ nl +:+
                      "Open " +:+ Browser.url_of port +:+ " manually." +:+
                      nl)]
          ++ after /\
      (OpenBrowser (Browser.url_of port) ∉ before) /\
      (OpenBrowser (Browser.url_of port) ∉ after))) /\
  (forall tr down,
      status (with_browser (Some e) inv) tr down
      = status (with_browser None inv) tr down).
Proof.
  destruct (browser_log inv e) as [Hend Hlog].
  split; [exact Hend|]. split; [exact Hlog|].
  intros tr down. unfold status. by rewrite Hend.
Qed.

End StartupMore.


(** ** Opening the browser *)

Module BrowserMore.

Import Browser.

Lemma escape_no_amp (s : string) : no_amp s = true -> escape_amp s = s.
Proof.
  induction s as [|c s IH]; [done|]. cbn.
  destruct (Ascii.eqb c "&"); [done|]. cbn. intros H. by rewrite IH.
Qed.

Lemma no_amp_app (a b : string) :
  no_amp (a +:+ b) = no_amp a && no_amp b.
Proof.
  induction a as [|c a IH]; [done|].
  change (no_amp (String c (a +:+ b))
          = no_amp (String c a) && no_amp b).
  cbn. rewrite IH. by rewrite andb_assoc.
Qed.

Lemma pretty_N_go_no_amp (x : N) (s : string) :
  no_amp s = true -> no_amp (pretty_N_go x s) = true.
Proof.
  revert s. induction (N.lt_wf_0 x) as [x _ IH]. intros s Hs.
  assert (x = 0 \/ 0 < x)%N as [->|Hx] by lia.
  - by rewrite pretty_N_go_0.
  - rewrite pretty_N_go_step by done. apply IH.
    + by apply N.div_lt.
    + cbn. rewrite Hs. unfold pretty_N_char. by repeat case_match.
Qed.

Lemma url_no_amp (port : N) : no_amp (url_of port) = true.
Proof.
  unfold url_of. rewrite no_amp_app. cbn [andb]. apply andb_true_iff.
  split; [reflexivity|]. unfold pretty, pretty_N.
  destruct (decide (port = 0%N)); [done|]. by apply pretty_N_go_no_amp.
Qed.

(** X24.  The URL of the session reaches the browser unchanged: on darwin,
    linux and windows the last argument of the command is exactly the URL
    that [run] built for its port (it has no ampersand for the Windows
    case to escape) and the only thing [openBrowser] does is to start that
    command; on any other platform it starts nothing and returns the
    error that names the platform. *)
Theorem url_reaches_browser (goos : string) (port : N) :
  match command goos (url_of port) with
  | Ok (cmd, args) =>
      last args = Some (url_of port) /\
      goos ∈ ["darwin"; "linux"; "windows"] /\
      forall spawn, openBrowser spawn goos (url_of port) = spawn cmd args
  | Err e =>
      e = "unsupported platform: " +:+ goos /\
      (goos ∉ ["darwin"; "linux"; "windows"]) /\
      forall spawn, openBrowser spawn goos (url_of port) = Some e
  end.
Proof.
  unfold openBrowser, command.
  destruct (String.eqb goos "darwin") eqn:Hd.
  { apply String.eqb_eq in Hd as ->. split; [done|].
    split; [apply list_elem_of_here|done]. }
  destruct (String.eqb goos "linux") eqn:Hl.
  { apply String.eqb_eq in Hl as ->. split; [done|].
    split; [apply list_elem_of_further, list_elem_of_here|done]. }
  destruct (String.eqb goos "windows") eqn:Hw.
  { apply String.eqb_eq in Hw as ->.
    rewrite (escape_no_amp _ (url_no_amp port)). split; [done|].
    split; [|done]. do 2 apply list_elem_of_further. apply list_elem_of_here. }
  apply String.eqb_neq in Hd, Hl, Hw. split; [done|]. split; [|done].
  rewrite !elem_of_cons, elem_of_nil. tauto.
Qed.

(** X25.  In what [strings.ReplaceAll(url, "&", "^&")] gives, no
    ampersand stands bare: each one comes right after a caret. *)
Theorem escape_amp_guards (url : string) (i : nat) :
  String.get i (escape_amp url) = Some "&"%char ->
  exists j, i = S j /\ String.get j (escape_amp url) = Some "^"%char.
Proof.
  revert i. induction url as [|c rest IH]; intros i; [by destruct i|].
  cbn [escape_amp]. destruct (Ascii.eqb c "&") eqn:Hc.
  - destruct i as [|[|k]]; cbn [String.get].
    + done.
    + intros _. by exists 0.
    + intros Hk. destruct (IH k Hk) as (j & -> & Hj).
      exists (S (S j)). split; [done|exact Hj].
  - destruct i as [|k]; cbn [String.get].
    + intros [= ->]. by rewrite Ascii.eqb_refl in Hc.
    + intros Hk. destruct (IH k Hk) as (j & -> & Hj).
      exists (S j). split; [done|exact Hj].
Qed.

(** The query string of a URL with two parameters. *)
Lemma escape_amp_guards_witness :
  exists j, 5 = S j /\
            String.get j (escape_amp "?a=1&b=2") = Some "^"%char.
Proof.
  apply (escape_amp_guards "?a=1&b=2" 5). reflexivity.
Defined.

Lemma escape_amp_head (s t : string) : escape_amp s <> String "&" t.
Proof.
  destruct s as [|c s]; [done|]. cbn.
  destruct (Ascii.eqb c "&") eqn:Hc; [done|].
  intros [= -> _]. by rewrite Ascii.eqb_refl in Hc.
Qed.

(** X26.  The escaping loses nothing: two URLs that are escaped to the
    same string are the same URL. *)
Theorem escape_amp_injective (u1 u2 : string) :
  escape_amp u1 = escape_amp u2 -> u1 = u2.
Proof.
  revert u2. induction u1 as [|c1 r1 IH]; intros [|c2 r2]; cbn.
  - done.
  - by destruct (Ascii.eqb c2 "&").
  - by destruct (Ascii.eqb c1 "&").
  - destruct (Ascii.eqb c1 "&") eqn:H1, (Ascii.eqb c2 "&") eqn:H2.
    + apply Ascii.eqb_eq in H1, H2. subst.
      intros [= H]. by rewrite (IH r2 H).
    + intros [= <- H]. symmetry in H. by apply escape_amp_head in H.
    + intros [= -> H]. by apply escape_amp_head in H.
    + intros [= -> H]. by rewrite (IH r2 H).
Qed.

Lemma escape_amp_injective_witness : "?a=1&b=2" = "?a=1&b=2".
Proof.
  apply (escape_amp_injective "?a=1&b=2" "?a=1&b=2"). reflexivity.
Defined.

End BrowserMore.


(** ** The join at its edges *)

Module CombineMore.

Import Combine CombineFacts Detector Session WatchFacts.

Lemma drop_empty_prefix_nil (sources : list bytes) :
  drop_empty_prefix sources = [] <-> Forall (fun s => s = []) sources.
Proof.
  induction sources as [|s rest IH]; [by split|].
  destruct s as [|b s]; cbn.
  - rewrite IH. split; [by constructor|]. by intros [_ H]%Forall_cons.
  - split; [done|]. by intros [H _]%Forall_cons.
Qed.

Lemma concat_drop_empty_prefix (sources : list bytes) :
  concat (drop_empty_prefix sources) = concat sources.
Proof.
  induction sources as [|s rest IH]; [done|]. by destruct s.
Qed.

Lemma length_boundaries (rest : list bytes) :
  List.length (concat (map (app boundary) rest))
  = List.length (concat rest) + 2 * List.length rest.
Proof.
  induction rest as [|s rest IH]; [done|].
  cbn [map concat List.length]. rewrite !length_app, IH. cbn. lia.
Qed.

(** X27.  The snapshot is empty exactly when every source is empty, and
    its length is the length of all sources together plus two bytes for
    every source that comes after the first non-empty one. *)
Theorem join_length (sources : list bytes) :
  (join_sources sources = [] <-> Forall (fun s => s = []) sources) /\
  List.length (join_sources sources)
  = List.length (concat sources)
    + 2 * pred (List.length (drop_empty_prefix sources)).
Proof.
  rewrite join_sources_drop, <- drop_empty_prefix_nil,
    <- (concat_drop_empty_prefix sources).
  assert (Hhead : forall s rest, drop_empty_prefix sources = s :: rest ->
                                 s <> []).
  { induction sources as [|x l IH]; [done|]. intros s rest.
    destruct x as [|b x]; cbn; [apply IH|]. by intros [= <- _]. }
  destruct (drop_empty_prefix sources) as [|s rest] eqn:Hd; [done|].
  rewrite sep_join_cons. split.
  - split; [|done]. intros H. apply app_eq_nil in H as [-> _].
    by destruct (Hhead [] rest eq_refl).
  - cbn [concat List.length pred]. rewrite !length_app, length_boundaries.
    lia.
Qed.

Lemma readable_none (fs : fsview) (paths : list string) :
  Forall (fun p => exists e, fs_read fs p = Err e) paths ->
  readable fs paths = [].
Proof.
  unfold readable. induction 1 as [|p rest [e He] _ IH]; [done|].
  cbn. rewrite He. exact IH.
Qed.

(** X28.  A refresh that can read none of its files blanks the page: the
    empty snapshot is installed all the same, and the viewers are
    notified. *)
Theorem unreadable_refresh_blanks (fs : fsview) (paths : list string)
    (modTimes : gmap string Z) (s : session) :
  watch s = Polling paths modTimes ->
  snd (poll fs modTimes) = true ->
  Forall (fun p => exists e, fs_read fs p = Err e) paths ->
  content (step s (Tick fs)) = [] /\
  viewers (step s (Tick fs)) = Broadcaster.notifyClients (viewers s).
Proof.
  intros Hw Hc Hall.
  destruct (refresh_step fs paths modTimes s Hw Hc) as (Hcont & _ & Hv).
  split; [|done]. rewrite Hcont.
  by rewrite (readable_none fs paths Hall).
Qed.

(** [mdview a.md b.md]: both files are written again and made
    unreadable; the next tick blanks the page and signals the viewer. *)
Lemma unreadable_refresh_blanks_witness :
  content (step (step (step Demo.two_files Subscribe)
                   (WatchStart (Demo.dir (Some 100%Z) (Some 90%Z))))
             (Tick DemoRun.locked)) = [] /\
  Broadcaster.pending
    (viewers (step (step (step Demo.two_files Subscribe)
                      (WatchStart (Demo.dir (Some 100%Z) (Some 90%Z))))
                (Tick DemoRun.locked))) 0 = 1.
Proof.
  pose proof (unreadable_refresh_blanks DemoRun.locked ["a.md"; "b.md"]
                (baseline (Demo.dir (Some 100%Z) (Some 90%Z))
                   ["a.md"; "b.md"])
                (step (step Demo.two_files Subscribe)
                   (WatchStart (Demo.dir (Some 100%Z) (Some 90%Z)))))
    as H.
  destruct H as [Hc Hv].
  - reflexivity.
  - vm_compute. reflexivity.
  - repeat constructor; eexists; reflexivity.
  - split; [exact Hc|]. rewrite Hv. vm_compute. reflexivity.
Defined.

End CombineMore.
